(** * Auto-Add Additive Dissolve: a shallow embedding of [Utility/main.py]

    The script drives a video editor through its scripting API.  The editor
    is external to the script, so it is modelled as a [World]: the values its
    accessors return and the little state its mutators change.  The script
    itself is embedded in a state/exception/trace monad [M]: every call that
    leaves the script (a host API call, [time.sleep], [print]) is recorded as
    an [Event], in program order. *)

From Stdlib Require Import ZArith List Bool Floats Sorting.Sorted Sorting.Permutation.
From stdpp Require Import base gmap strings list.

Local Open Scope string_scope.
Local Open Scope list_scope.
Local Open Scope nat_scope.

(* The literal 0.15 below denotes, as in Python, the nearest binary64 value. *)
#[local] Set Warnings "-inexact-float".

(** ** Configurable constants (main.py, lines 62-64) *)

Definition TRANSITION_FRAMES : Z := 24.
Definition TRANSITION_NAME : string := "Additive Dissolve".
Definition DEFAULT_UI_TIMEOUT : float := 0.15%float.

(** ** What the script can do to the outside *)

(** One constructor per [print] statement of [main]; the arguments are the
    values the f-string interpolates. *)
Inductive Msg : Type :=
| MsgNoProject                                  (* line 80 *)
| MsgNoTimeline                                 (* line 85 *)
| MsgSetDefault (name : string)                 (* line 92 *)
| MsgCouldNotSet (current : option string)      (* line 94 *)
| MsgAlreadyDefault (name : string)             (* line 96 *)
| MsgNoVideoTracks                              (* line 104 *)
| MsgAdded (transitions pairs : nat)            (* line 136 *)
| MsgNoneAdded.                                 (* line 138 *)

(** Clip handles are opaque host objects; a handle is modelled by a number. *)
Definition clip := nat.

Inductive Event : Type :=
| EvScriptApp (name : string)
| EvGetProjectManager
| EvGetCurrentProject
| EvGetCurrentTimeline
| EvGetSetting (key : string)
| EvSetSetting (key value : string)
| EvUIManager
| EvUIDispatcher
| EvGetTrackCount (kind : string)
| EvGetItemListInTrack (kind : string) (idx : nat)
| EvGetClipProperty (c : clip) (key : string)
| EvGetStart (c : clip)
| EvClearClipSelections
| EvSetClipEnabled (c : clip) (b : bool)
| EvSelect (c : clip)
| EvKeyPress (key : string)
| EvKeyReleaseAll
| EvSleep (secs : float)
| EvPrint (m : Msg).

(** ** The host and the interpreter environment *)

(** The host is taken to be running and well behaved: its calls return and
    do not raise.  Of its state the model keeps what the script can read or
    change: the project settings, the clips of the video tracks with the
    property table, start frame and enabled flag of each, and the timeline
    selection, which [ClearClipSelections] empties and [Select] extends.
    What the editor does when it receives a key is not part of the script;
    key events are recorded and leave the modelled state alone. *)

Record World : Type := mkWorld {
  platform : string;                      (* sys.platform *)
  host_globals : list string;             (* names the host put into the module's globals *)
  project_open : bool;                    (* GetCurrentProject() is not None *)
  timeline_open : bool;                   (* GetCurrentTimeline() is not None *)
  settings : gmap string string;          (* project settings *)
  setting_accepted : string → string → bool;  (* does SetSetting(key, value) succeed *)
  video_tracks : list (list clip);        (* items of video track 1, 2, ... *)
  clip_props : clip → gmap string string; (* GetClipProperty *)
  clip_start : clip → Z;                  (* GetStart *)
  clip_enabled : clip → bool;             (* changed by SetClipEnabled *)
  selected : gset clip                    (* timeline selection *)
}.

Definition set_settings (s : gmap string string) (w : World) : World :=
  mkWorld (platform w) (host_globals w) (project_open w) (timeline_open w)
          s (setting_accepted w) (video_tracks w)
          (clip_props w) (clip_start w) (clip_enabled w) (selected w).

Definition set_clip_enabled (f : clip → bool) (w : World) : World :=
  mkWorld (platform w) (host_globals w) (project_open w) (timeline_open w)
          (settings w) (setting_accepted w) (video_tracks w)
          (clip_props w) (clip_start w) f (selected w).

Definition set_selected (s : gset clip) (w : World) : World :=
  mkWorld (platform w) (host_globals w) (project_open w) (timeline_open w)
          (settings w) (setting_accepted w) (video_tracks w)
          (clip_props w) (clip_start w) (clip_enabled w) s.

(** ** The monad: state, exceptions, and the trace of events *)

Inductive Exn : Type :=
| NameError (name : string).

Inductive Result (A : Type) : Type :=
| Ok (a : A)
| Raise (e : Exn).
Arguments Ok {A} a.
Arguments Raise {A} e.

Definition M (A : Type) : Type := World → Result A * World * list Event.

Definition ret {A} (a : A) : M A := λ w, (Ok a, w, []).

Definition bind {A B} (m : M A) (f : A → M B) : M B :=
  λ w, match m w with
       | (Ok a, w1, e1) =>
           match f a w1 with
           | (r, w2, e2) => (r, w2, e1 ++ e2)
           end
       | (Raise x, w1, e1) => (Raise x, w1, e1)
       end.

Declare Scope py_scope.
Delimit Scope py_scope with py.
Notation "'do' x <- m ; k" := (bind m (λ x, k))
  (at level 10, x name, m at level 100, k at level 200) : py_scope.
Notation "m >> k" := (bind m (λ _, k))
  (at level 100, k at level 200, right associativity) : py_scope.
Local Open Scope py_scope.

Definition emit (e : Event) : M unit := λ w, (Ok tt, w, [e]).
Definition get {A} (f : World → A) : M A := λ w, (Ok (f w), w, []).
Definition modify (f : World → World) : M unit := λ w, (Ok tt, f w, []).

(** The result, final world and trace of a run. *)
Definition result_of {A} (r : Result A * World * list Event) : Result A := r.1.1.
Definition world_of {A} (r : Result A * World * list Event) : World := r.1.2.
Definition trace_of {A} (r : Result A * World * list Event) : list Event := r.2.

(** ** Name resolution *)

(** The names bound in the module's namespace by the time [main] is called:
    the two plain imports (lines 52-53), the alias of the guarded import
    (line 56), the three constants and the two functions.  Builtins ([print],
    [range], [len], [zip]) are always bound and are not tracked. *)
Definition module_globals : list string :=
  ["sys"; "time"; "dvr"; "TRANSITION_FRAMES"; "TRANSITION_NAME";
   "DEFAULT_UI_TIMEOUT"; "ui_keystroke"; "main"].

Definition name_bound (w : World) (name : string) : bool :=
  bool_decide (name ∈ module_globals) || bool_decide (name ∈ host_globals w).

(** Evaluating a global name: unbound names raise [NameError]. *)
Definition global_ref (name : string) : M unit :=
  λ w, if name_bound w name then (Ok tt, w, []) else (Raise (NameError name), w, []).

(** ** The host API, as far as the script uses it *)

Definition print (m : Msg) : M unit := emit (EvPrint m).

Definition scriptapp (name : string) : M unit := emit (EvScriptApp name).
Definition GetProjectManager : M unit := emit EvGetProjectManager.
Definition GetCurrentProject : M bool := emit EvGetCurrentProject >> get project_open.
Definition GetCurrentTimeline : M bool := emit EvGetCurrentTimeline >> get timeline_open.

Definition GetSetting (key : string) : M (option string) :=
  emit (EvGetSetting key) >> get (λ w, settings w !! key).

Definition SetSetting (key value : string) : M bool :=
  emit (EvSetSetting key value) >>
  do ok <- get (λ w, setting_accepted w key value);
  if ok : bool then modify (λ w, set_settings (<[key:=value]> (settings w)) w) >> ret true
  else ret false.

Definition UIManager : M unit := emit EvUIManager.
Definition UIDispatcher : M unit := emit EvUIDispatcher.

Definition GetTrackCount (kind : string) : M nat :=
  emit (EvGetTrackCount kind) >> get (λ w, length (video_tracks w)).

(** Track indices start at 1; outside 1..count the host has no items. *)
Definition items_in_track (w : World) (idx : nat) : list clip :=
  match idx with
  | 0 => []
  | S i => default [] (video_tracks w !! i)
  end.

Definition GetItemListInTrack (kind : string) (idx : nat) : M (list clip) :=
  emit (EvGetItemListInTrack kind idx) >> get (λ w, items_in_track w idx).

Definition GetClipProperty (c : clip) (key : string) : M (option string) :=
  emit (EvGetClipProperty c key) >> get (λ w, clip_props w c !! key).

Definition GetStart (c : clip) : M Z :=
  emit (EvGetStart c) >> get (λ w, clip_start w c).

Definition ClearClipSelections : M unit :=
  emit EvClearClipSelections >> modify (set_selected ∅).

Definition SetClipEnabled (c : clip) (b : bool) : M unit :=
  emit (EvSetClipEnabled c b) >>
  modify (λ w, set_clip_enabled (λ c', if decide (c' = c) then b else clip_enabled w c') w).

Definition Select (c : clip) : M unit :=
  emit (EvSelect c) >> modify (λ w, set_selected ({[c]} ∪ selected w) w).

Definition KeyPress (key : string) : M unit := emit (EvKeyPress key).
Definition KeyReleaseAll : M unit := emit EvKeyReleaseAll.
Definition sleep (secs : float) : M unit := emit (EvSleep secs).

(** ** Python control structures *)

(** [for x in l: s = body x s] *)
Fixpoint for_each {A S} (l : list A) (body : A → S → M S) (s : S) : M S :=
  match l with
  | [] => ret s
  | x :: l' => do s' <- body x s; for_each l' body s'
  end.

(** [[f(x) for x in l]] *)
Fixpoint map_m {A B} (f : A → M B) (l : list A) : M (list B) :=
  match l with
  | [] => ret []
  | x :: l' => do y <- f x; do ys <- map_m f l'; ret (y :: ys)
  end.

(** [list.sort(key=...)] computes the key of every element once, in list
    order, and then sorts stably on the keys. *)
Fixpoint insert_keyed {A} (x : Z * A) (l : list (Z * A)) : list (Z * A) :=
  match l with
  | [] => [x]
  | y :: l' => if (x.1 <=? y.1)%Z then x :: y :: l' else y :: insert_keyed x l'
  end.

Fixpoint stable_sort {A} (l : list (Z * A)) : list (Z * A) :=
  match l with
  | [] => []
  | x :: l' => insert_keyed x (stable_sort l')
  end.

Definition sort_by_key {A} (key : A → M Z) (l : list A) : M (list A) :=
  do keyed <- map_m (λ x, do k <- key x; ret (k, x)) l;
  ret (map snd (stable_sort keyed)).

(** ** ui_keystroke (lines 67-73) *)

Definition ui_keystroke (keys : list string) : M unit :=
  for_each keys (λ key _, KeyPress key) tt >>
  KeyReleaseAll >>
  global_ref "time" >>
  global_ref "DEFAULT_UI_TIMEOUT" >>
  sleep DEFAULT_UI_TIMEOUT.

(** ** main (lines 75-138) *)

(** Lines 89-96. *)
Definition ensure_default_transition : M unit :=
  do cur <- GetSetting "standardVideoTransition";
  global_ref "TRANSITION_NAME" >>
  if bool_decide (cur ≠ Some TRANSITION_NAME) then
    do ok <- SetSetting "standardVideoTransition" TRANSITION_NAME;
    if ok : bool then print (MsgSetDefault TRANSITION_NAME)
    else do now <- GetSetting "standardVideoTransition"; print (MsgCouldNotSet now)
  else print (MsgAlreadyDefault TRANSITION_NAME).

(** Lines 122-127: deselect all, enable and select the two clips. *)
Definition select_pair (clip_a clip_b : clip) : M unit :=
  ClearClipSelections >>
  SetClipEnabled clip_a true >>
  SetClipEnabled clip_b true >>
  Select clip_a >>
  Select clip_b.

(** Line 130. *)
Definition default_transition_shortcut : M unit :=
  global_ref "sys" >>
  do plat <- get platform;
  if String.prefix "win" plat
  then global_ref "ui_keystroke" >> ui_keystroke ["Ctrl"; "T"]
  else global_ref "ui_keystroke" >> ui_keystroke ["Cmd"; "T"].

(** The loop counters [clips_selected] and [transitions_added]. *)
Definition counters : Type := nat * nat.

(** Lines 121-131, the body of the loop over pairs. *)
Definition process_pair (p : clip * clip) (cnt : counters) : M counters :=
  select_pair p.1 p.2 >>
  default_transition_shortcut >>
  ret (cnt.1 + 2, cnt.2 + 1).

(** Line 113. *)
Definition is_still_marker (p : option string) : bool :=
  bool_decide (p = Some "True").

Definition filter_stills (items : list clip) : M (list clip) :=
  do marks <- map_m (λ it, do p <- GetClipProperty it "IsStill"; ret (it, is_still_marker p)) items;
  ret (map fst (List.filter snd marks)).

(** Lines 111-131, the body of the loop over tracks. *)
Definition process_track (track_idx : nat) (cnt : counters) : M counters :=
  do items <- GetItemListInTrack "video" track_idx;
  do stills <- filter_stills items;
  if length stills <? 2 then ret cnt
  else
    do stills <- sort_by_key GetStart stills;
    for_each (zip stills (tail stills)) process_pair cnt.

Definition main : M unit :=
  global_ref "dvr" >>
  scriptapp "Resolve" >>
  GetProjectManager >>
  do project <- GetCurrentProject;
  if negb project then print MsgNoProject
  else
    do timeline <- GetCurrentTimeline;
    if negb timeline then print MsgNoTimeline
    else
      ensure_default_transition >>
      UIManager >>
      global_ref "bmd" >>
      UIDispatcher >>
      do video_tracks <- GetTrackCount "video";
      if video_tracks =? 0 then print MsgNoVideoTracks
      else
        do cnt <- for_each (seq 1 video_tracks) process_track (0, 0);
        ClearClipSelections >>
        if negb (cnt.2 =? 0) then print (MsgAdded cnt.2 (cnt.1 / 2))
        else print MsgNoneAdded.

(** * What a run looks like from outside

    The definitions below describe traces and host states in plain list
    terms, without the monad; the lemmas after them relate the embedded
    program to these descriptions. *)

Definition modifier_key (plat : string) : string :=
  if String.prefix "win" plat then "Ctrl" else "Cmd".

Definition shortcut_events (plat : string) : list Event :=
  [EvKeyPress (modifier_key plat); EvKeyPress "T"; EvKeyReleaseAll;
   EvSleep DEFAULT_UI_TIMEOUT].

Definition selection_events (p : clip * clip) : list Event :=
  [EvClearClipSelections; EvSetClipEnabled p.1 true; EvSetClipEnabled p.2 true;
   EvSelect p.1; EvSelect p.2].

Definition pair_events (plat : string) (p : clip * clip) : list Event :=
  selection_events p ++ shortcut_events plat.

Definition is_still (w : World) (c : clip) : bool :=
  is_still_marker (clip_props w c !! "IsStill").

Definition stills_of (w : World) (idx : nat) : list clip :=
  List.filter (is_still w) (items_in_track w idx).

Definition sorted_by_start (w : World) (l : list clip) : list clip :=
  map snd (stable_sort (map (λ c, (clip_start w c, c)) l)).

Definition adjacent_pairs {A} (l : list A) : list (A * A) := zip l (tail l).

(** The pairs the loop body handles on a track: none below two stills. *)
Definition track_pairs (w : World) (idx : nat) : list (clip * clip) :=
  if length (stills_of w idx) <? 2 then []
  else adjacent_pairs (sorted_by_start w (stills_of w idx)).

Definition track_events (w : World) (idx : nat) : list Event :=
  EvGetItemListInTrack "video" idx ::
  map (λ c, EvGetClipProperty c "IsStill") (items_in_track w idx) ++
  (if length (stills_of w idx) <? 2 then []
   else map EvGetStart (stills_of w idx) ++
        flat_map (pair_events (platform w)) (track_pairs w idx)).

(** The clips named by a list of pairs. *)
Definition pair_clips (ps : list (clip * clip)) : list clip :=
  flat_map (λ p, [p.1; p.2]) ps.

(** The host data the script only reads. *)
Record same_host (w w' : World) : Prop := {
  sh_platform : platform w' = platform w;
  sh_globals : host_globals w' = host_globals w;
  sh_project : project_open w' = project_open w;
  sh_timeline : timeline_open w' = timeline_open w;
  sh_accepted : setting_accepted w' = setting_accepted w;
  sh_tracks : video_tracks w' = video_tracks w;
  sh_props : clip_props w' = clip_props w;
  sh_start : clip_start w' = clip_start w
}.

(** ** The pairs and the trace of a whole run *)

(** All pairs handled on the given tracks, in order. *)
Definition pairs_on (w : World) (idxs : list nat) : list (clip * clip) :=
  flat_map (track_pairs w) idxs.

Definition setting_differs (w : World) : bool :=
  bool_decide (settings w !! "standardVideoTransition" ≠ Some TRANSITION_NAME).

Definition settings_events (w : World) : list Event :=
  EvGetSetting "standardVideoTransition" ::
  (if setting_differs w then
     EvSetSetting "standardVideoTransition" TRANSITION_NAME ::
     (if setting_accepted w "standardVideoTransition" TRANSITION_NAME
      then [EvPrint (MsgSetDefault TRANSITION_NAME)]
      else [EvGetSetting "standardVideoTransition";
            EvPrint (MsgCouldNotSet (settings w !! "standardVideoTransition"))])
   else [EvPrint (MsgAlreadyDefault TRANSITION_NAME)]).

Definition settings_after (w : World) : gmap string string :=
  if setting_differs w && setting_accepted w "standardVideoTransition" TRANSITION_NAME
  then <["standardVideoTransition" := TRANSITION_NAME]> (settings w)
  else settings w.

(** Does the run get past the guard of line 103? *)
Definition reaches_loop (w : World) : bool :=
  project_open w && timeline_open w && name_bound w "bmd" &&
  negb (length (video_tracks w) =? 0).

Definition all_tracks (w : World) : list nat := seq 1 (length (video_tracks w)).

Definition all_pairs (w : World) : list (clip * clip) := pairs_on w (all_tracks w).

Definition final_message (n : nat) : Msg :=
  if n =? 0 then MsgNoneAdded else MsgAdded n n.

Definition loop_events (w : World) : list Event :=
  flat_map (track_events w) (all_tracks w) ++
  [EvClearClipSelections; EvPrint (final_message (length (all_pairs w)))].

Definition main_events (w : World) : list Event :=
  [EvScriptApp "Resolve"; EvGetProjectManager; EvGetCurrentProject] ++
  (if negb (project_open w) then [EvPrint MsgNoProject]
   else
     EvGetCurrentTimeline ::
     (if negb (timeline_open w) then [EvPrint MsgNoTimeline]
      else
        settings_events w ++
        EvUIManager ::
        (if name_bound w "bmd" then
           EvUIDispatcher :: EvGetTrackCount "video" ::
           (if length (video_tracks w) =? 0 then [EvPrint MsgNoVideoTracks]
            else loop_events w)
         else []))).

Definition main_result (w : World) : Result unit :=
  if project_open w && timeline_open w && negb (name_bound w "bmd")
  then Raise (NameError "bmd") else Ok tt.

(** ** Orders on keys and on clips *)

Definition key_le {A} (x y : Z * A) : Prop := (x.1 ≤ y.1)%Z.

Definition start_le (w : World) (a b : clip) : Prop :=
  (clip_start w a ≤ clip_start w b)%Z.

(** ** Reading a trace *)

(** Event classifiers and the projections of a trace that the properties
    below are stated on. *)
Definition keep {A} (p : A → bool) (x : A) : list A := if p x then [x] else [].

Definition is_ui_event (e : Event) : bool :=
  match e with EvKeyPress _ | EvKeyReleaseAll | EvSleep _ => true | _ => false end.

Definition is_selection_op (e : Event) : bool :=
  match e with EvClearClipSelections | EvSelect _ => true | _ => false end.

Definition is_release (e : Event) : bool :=
  match e with EvKeyReleaseAll => true | _ => false end.

(** The events of the loop over pairs: everything but the reads. *)
Definition is_pair_op (e : Event) : bool :=
  match e with
  | EvClearClipSelections | EvSetClipEnabled _ _ | EvSelect _
  | EvKeyPress _ | EvKeyReleaseAll | EvSleep _ => true
  | _ => false
  end.

Definition ui_events (evs : list Event) : list Event := flat_map (keep is_ui_event) evs.
Definition selection_ops (evs : list Event) : list Event := flat_map (keep is_selection_op) evs.
Definition pair_ops (evs : list Event) : list Event := flat_map (keep is_pair_op) evs.

(** One [KeyReleaseAll] per call of [ui_keystroke]. *)
Definition keystroke_calls (evs : list Event) : nat := length (flat_map (keep is_release) evs).

Definition key_presses (evs : list Event) : list string :=
  flat_map (λ e, match e with EvKeyPress k => [k] | _ => [] end) evs.

Definition set_setting_calls (evs : list Event) : list (string * string) :=
  flat_map (λ e, match e with EvSetSetting k v => [(k, v)] | _ => [] end) evs.

Definition selected_clips (evs : list Event) : list clip :=
  flat_map (λ e, match e with EvSelect c => [c] | _ => [] end) evs.

Definition sort_key_clips (evs : list Event) : list clip :=
  flat_map (λ e, match e with EvGetStart c => [c] | _ => [] end) evs.

Definition enabled_clips (evs : list Event) : list (clip * bool) :=
  flat_map (λ e, match e with EvSetClipEnabled c b => [(c, b)] | _ => [] end) evs.

(** * Concrete sessions *)

Definition still_props : gmap string string := {["IsStill" := "True"]}.
Definition video_props : gmap string string := {["IsStill" := "False"]}.

Definition demo_start (c : clip) : Z :=
  match c with
  | 1 => 100
  | 2 => 50
  | 3 => 0
  | _ => 10
  end.

(** The script run from the editor's own menu on Windows, where the editor
    has put [resolve], [fusion] and [bmd] into the script's globals.  Track 1
    holds the stills 1 and 3 around the video clip 2, track 2 the lone
    still 4; every clip is disabled, nothing is selected. *)
Definition demo_world : World :=
  mkWorld "win32" ["resolve"; "fusion"; "bmd"] true true ∅ (λ _ _, true)
          [[1; 2; 3]; [4]]
          (λ c, if c =? 2 then video_props else still_props)
          demo_start (λ _, false) ∅.

(** The same timeline with the script started as a plain Python program
    ([python3 main.py]) on macOS: the module's globals are its own. *)
Definition standalone_world : World :=
  mkWorld "darwin" [] true true ∅ (λ _ _, true)
          [[1; 2; 3]; [4]]
          (λ c, if c =? 2 then video_props else still_props)
          demo_start (λ _, false) ∅.

(** Standalone, with a timeline that has no video track. *)
Definition standalone_empty_world : World :=
  mkWorld "darwin" [] true true ∅ (λ _ _, true) []
          (λ _, ∅) (λ _, 0%Z) (λ _, true) ∅.

(** Inside the editor, one track with a single still. *)
Definition lone_still_world : World :=
  mkWorld "win32" ["resolve"; "fusion"; "bmd"] true true
          {["standardVideoTransition" := "Additive Dissolve"]} (λ _ _, true)
          [[5]] (λ _, still_props) (λ _, 0%Z) (λ _, false) ∅.

(** ** The per-pair work in the words of the specification *)

(** The per-pair work as the specification words it: select both clips, then
    the shortcut (with its sleep). *)
Definition stated_pair_events (plat : string) (p : clip * clip) : list Event :=
  [EvSelect p.1; EvSelect p.2] ++ shortcut_events plat.

(** * Further readings of a run *)

(** The same session with other project settings and another answer of the
    host to SetSetting. *)
Definition with_project_settings (s : gmap string string)
    (acc : string → string → bool) (w : World) : World :=
  mkWorld (platform w) (host_globals w) (project_open w) (timeline_open w)
          s acc (video_tracks w)
          (clip_props w) (clip_start w) (clip_enabled w) (selected w).

(** The GetClipProperty calls of a trace, and the GetItemListInTrack calls. *)
Definition property_reads (evs : list Event) : list (clip * string) :=
  flat_map (λ e, match e with EvGetClipProperty c k => [(c, k)] | _ => [] end) evs.

Definition track_reads (evs : list Event) : list (string * nat) :=
  flat_map (λ e, match e with EvGetItemListInTrack kind idx => [(kind, idx)] | _ => [] end) evs.

(** Counting the Select calls since the last ClearClipSelections: the count
    after one more event, after a list of events, and the highest count
    reached on the way. *)
Definition select_step (n : nat) (e : Event) : nat :=
  match e with
  | EvClearClipSelections => 0
  | EvSelect _ => S n
  | _ => n
  end.

Definition selects_after (n : nat) (evs : list Event) : nat :=
  fold_left select_step evs n.

Fixpoint peak_selects (n : nat) (evs : list Event) : nat :=
  match evs with
  | [] => n
  | e :: rest => Nat.max n (peak_selects (select_step n e) rest)
  end.

(** From a count of at most two, the events keep the count at most two. *)
Definition at_most_two (evs : list Event) : Prop :=
  ∀ n, n ≤ 2 → peak_selects n evs ≤ 2 ∧ selects_after n evs ≤ 2.

(** The summary [main] prints when it gets to its end (lines 135-138), and
    the line a normal return ends with: the guards in their order. *)
Definition exit_message (w : World) : Msg :=
  if negb (project_open w) then MsgNoProject
  else if negb (timeline_open w) then MsgNoTimeline
  else if length (video_tracks w) =? 0 then MsgNoVideoTracks
  else final_message (length (all_pairs w)).

(** ** More concrete sessions *)

(** The editor running with no project open (and so no timeline). *)
Definition no_project_world : World :=
  mkWorld "linux" ["resolve"; "fusion"; "bmd"] false false ∅ (λ _ _, true)
          [] (λ _, ∅) (λ _, 0%Z) (λ _, true) {[7]}.

(** Inside the editor on macOS, with a project whose default transition is
    another one and cannot be changed.  One track: the stills 1, 2, 3, 4, of
    which 2 and 4 start at frame 10, 1 at frame 20 and 3 at frame 0. *)
Definition locked_world : World :=
  mkWorld "darwin" ["resolve"; "fusion"; "bmd"] true true
          {["standardVideoTransition" := "Cross Dissolve"]} (λ _ _, false)
          [[1; 2; 3; 4]] (λ _, still_props)
          (λ c, match c with 1 => 20%Z | 3 => 0%Z | _ => 10%Z end)
          (λ _, true) ∅.

(** * Lemmas on the monad and the primitives *)

#[local] Set Warnings "-clear-no-such-hyp".

Lemma same_host_refl w : same_host w w.
Proof. by split. Qed.

Lemma same_host_trans w1 w2 w3 : same_host w1 w2 → same_host w2 w3 → same_host w1 w3.
Proof. intros [] []; split; congruence. Qed.

Lemma bind_ok {A B} (m : M A) (f : A → M B) w a w1 e1 :
  m w = (Ok a, w1, e1) →
  bind m f w = ((f a w1).1.1, (f a w1).1.2, e1 ++ (f a w1).2).
Proof. unfold bind. intros ->. by destruct (f a w1) as [[? ?] ?]. Qed.

Lemma global_ref_module name w :
  bool_decide (name ∈ module_globals) = true → global_ref name w = (Ok tt, w, []).
Proof. unfold global_ref, name_bound. by intros ->. Qed.

(** Run the first action of a sequence with a lemma that gives its outcome. *)
Ltac run_with lem :=
  unfold bind at 1; rewrite lem by done; cbv beta iota.

Lemma for_each_KeyPress keys w :
  for_each keys (λ key _, KeyPress key) tt w = (Ok tt, w, map EvKeyPress keys).
Proof.
  induction keys as [|k keys IH]; [done|].
  cbn [for_each map]. unfold bind at 1. cbn. by rewrite IH.
Qed.

Lemma ui_keystroke_spec keys w :
  ui_keystroke keys w =
    (Ok tt, w, map EvKeyPress keys ++ [EvKeyReleaseAll; EvSleep DEFAULT_UI_TIMEOUT]).
Proof.
  unfold ui_keystroke.
  rewrite (bind_ok _ _ _ _ _ _ (for_each_KeyPress keys w)).
  reflexivity.
Qed.

Lemma default_transition_shortcut_spec w :
  default_transition_shortcut w = (Ok tt, w, shortcut_events (platform w)).
Proof.
  unfold default_transition_shortcut, shortcut_events, modifier_key.
  run_with (global_ref_module "sys" w).
  unfold bind at 1, get at 1; cbv beta iota.
  destruct (String.prefix "win" (platform w));
    run_with (global_ref_module "ui_keystroke" w);
    by rewrite ui_keystroke_spec.
Qed.

Lemma select_pair_world a b w :
  let w' := world_of (select_pair a b w) in
  same_host w w' ∧ settings w' = settings w ∧ selected w' = {[a; b]} ∧
  ∀ c, clip_enabled w' c = bool_decide (c ∈ [a; b]) || clip_enabled w c.
Proof.
  cbn. split_and!; [by split | done | set_solver |].
  intros c. destruct (clip_enabled w c) eqn:E;
    repeat case_decide; subst; rewrite ?orb_true_r; try done;
    symmetry; rewrite ?orb_false_r;
    (apply bool_decide_eq_true_2 || apply bool_decide_eq_false_2); set_solver.
Qed.

Lemma select_pair_spec a b w :
  select_pair a b w = (Ok tt, world_of (select_pair a b w), selection_events (a, b)).
Proof. reflexivity. Qed.

Lemma process_pair_spec p cnt w :
  process_pair p cnt w =
    (Ok (cnt.1 + 2, cnt.2 + 1), world_of (select_pair p.1 p.2 w),
     pair_events (platform w) p).
Proof.
  unfold process_pair.
  run_with (select_pair_spec p.1 p.2 w).
  run_with default_transition_shortcut_spec.
  destruct p; reflexivity.
Qed.

(** ** The loop over the pairs of one track (lines 120-131) *)

Lemma pair_loop_spec ps : ∀ cnt w,
  ∃ w', for_each ps process_pair cnt w =
          (Ok (cnt.1 + 2 * length ps, cnt.2 + length ps), w',
           flat_map (pair_events (platform w)) ps) ∧
        same_host w w' ∧ settings w' = settings w ∧
        selected w' = match last ps with
                      | Some p => {[p.1; p.2]}
                      | None => selected w
                      end ∧
        ∀ c, clip_enabled w' c = bool_decide (c ∈ pair_clips ps) || clip_enabled w c.
Proof.
  induction ps as [|p ps IH]; intros cnt w.
  - exists w. cbn. rewrite !Nat.add_0_r. destruct cnt.
    split_and!; [done | apply same_host_refl | done | done |].
    intros c. by rewrite bool_decide_eq_false_2; [|set_solver].
  - destruct (select_pair_world p.1 p.2 w) as (Hh & Hs & Hsel & Hen).
    set (w1 := world_of (select_pair p.1 p.2 w)) in *.
    destruct (IH (cnt.1 + 2, cnt.2 + 1) w1) as (w' & Hrun & Hh' & Hs' & Hsel' & Hen').
    exists w'. cbn [for_each].
    run_with process_pair_spec. fold w1. rewrite Hrun.
    rewrite (sh_platform _ _ Hh). cbn [fst snd flat_map length].
    split_and!.
    + replace (cnt.1 + 2 + 2 * length ps) with (cnt.1 + 2 * S (length ps)) by lia.
      by replace (cnt.2 + 1 + length ps) with (cnt.2 + S (length ps)) by lia.
    + by eapply same_host_trans.
    + congruence.
    + rewrite Hsel'. destruct ps as [|q ps]; [by cbn|].
      rewrite last_cons_cons.
      destruct (last (q :: ps)) eqn:E; [done|]. by apply last_None in E.
    + intros c. rewrite Hen', Hen. unfold pair_clips. cbn [flat_map].
      fold (pair_clips ps).
      destruct (clip_enabled w c); rewrite ?orb_true_r; [done|].
      rewrite !orb_false_r.
      destruct (bool_decide (c ∈ pair_clips ps)) eqn:E1.
      * apply bool_decide_eq_true_1 in E1.
        symmetry. apply bool_decide_eq_true_2. set_solver.
      * apply bool_decide_eq_false_1 in E1. cbn [orb].
        apply bool_decide_ext. set_solver.
Qed.

(** ** Filtering and sorting (lines 113 and 118) *)

Lemma filter_stills_spec items w :
  filter_stills items w =
    (Ok (List.filter (is_still w) items), w,
     map (λ c, EvGetClipProperty c "IsStill") items).
Proof.
  unfold filter_stills.
  assert (map_m (λ it, do p <- GetClipProperty it "IsStill";
                          ret (it, is_still_marker p)) items w
          = (Ok (map (λ c, (c, is_still w c)) items), w,
             map (λ c, EvGetClipProperty c "IsStill") items)) as Hm.
  { induction items as [|c items IH]; [done|].
    cbn [map_m map]. unfold bind at 1. cbn.
    unfold bind at 1. rewrite IH. unfold ret. cbv beta iota.
    by rewrite app_nil_r. }
  run_with Hm. unfold ret. rewrite app_nil_r. do 3 f_equal.
  clear Hm. induction items as [|c items IH]; [done|].
  cbn. destruct (is_still w c); cbn; by rewrite IH.
Qed.

Lemma sort_by_key_spec l w :
  sort_by_key GetStart l w = (Ok (sorted_by_start w l), w, map EvGetStart l).
Proof.
  unfold sort_by_key, sorted_by_start.
  assert (map_m (λ x, do k <- GetStart x; ret (k, x)) l w
          = (Ok (map (λ c, (clip_start w c, c)) l), w, map EvGetStart l)) as Hm.
  { induction l as [|c l IH]; [done|].
    cbn [map_m map]. unfold bind at 1. cbn.
    unfold bind at 1. rewrite IH. unfold ret. cbv beta iota.
    by rewrite app_nil_r. }
  run_with Hm. unfold ret. by rewrite app_nil_r.
Qed.

(** ** The loop body for one track (lines 111-131) *)

Lemma process_track_spec idx cnt w :
  ∃ w', process_track idx cnt w =
          (Ok (cnt.1 + 2 * length (track_pairs w idx),
               cnt.2 + length (track_pairs w idx)), w', track_events w idx) ∧
        same_host w w' ∧ settings w' = settings w ∧
        selected w' = match last (track_pairs w idx) with
                      | Some p => {[p.1; p.2]}
                      | None => selected w
                      end ∧
        ∀ c, clip_enabled w' c =
             bool_decide (c ∈ pair_clips (track_pairs w idx)) || clip_enabled w c.
Proof.
  unfold process_track, track_events, track_pairs.
  fold (stills_of w idx).
  unfold bind at 1. unfold GetItemListInTrack at 1, bind at 1, emit, get.
  cbv beta iota.
  run_with filter_stills_spec. fold (stills_of w idx).
  destruct (length (stills_of w idx) <? 2) eqn:Hlen.
  - exists w. unfold ret. cbn [length last pair_clips flat_map].
    rewrite !Nat.add_0_r, !app_nil_r. destruct cnt.
    split_and!; [done | apply same_host_refl | done | done |].
    intros c. by rewrite bool_decide_eq_false_2; [|set_solver].
  - run_with sort_by_key_spec.
    destruct (pair_loop_spec
                (zip (sorted_by_start w (stills_of w idx))
                     (tail (sorted_by_start w (stills_of w idx)))) cnt w)
      as (w' & Hrun & Hrest).
    exists w'. rewrite Hrun. unfold adjacent_pairs.
    split; [|exact Hrest].
    reflexivity.
Qed.

(** ** The loop over the tracks (line 110) *)

Lemma track_pairs_same_host w w' idx :
  same_host w w' → track_pairs w' idx = track_pairs w idx.
Proof.
  intros H.
  unfold track_pairs, stills_of, sorted_by_start, items_in_track, is_still.
  by rewrite (sh_tracks _ _ H), (sh_props _ _ H), (sh_start _ _ H).
Qed.

Lemma track_events_same_host w w' idx :
  same_host w w' → track_events w' idx = track_events w idx.
Proof.
  intros H. unfold track_events. rewrite (track_pairs_same_host _ _ _ H).
  unfold stills_of, items_in_track, is_still.
  by rewrite (sh_tracks _ _ H), (sh_props _ _ H), (sh_platform _ _ H).
Qed.

Lemma last_app_match {A B} (l1 l2 : list A) (f : A → B) (d : B) :
  match last (l1 ++ l2) with Some x => f x | None => d end =
  match last l2 with
  | Some x => f x
  | None => match last l1 with Some x => f x | None => d end
  end.
Proof.
  destruct l2 as [|y l2 _] using rev_ind.
  - by rewrite app_nil_r.
  - by rewrite app_assoc, !last_snoc.
Qed.

Lemma track_loop_spec idxs : ∀ cnt w,
  ∃ w', for_each idxs process_track cnt w =
          (Ok (cnt.1 + 2 * length (pairs_on w idxs),
               cnt.2 + length (pairs_on w idxs)), w',
           flat_map (track_events w) idxs) ∧
        same_host w w' ∧ settings w' = settings w ∧
        selected w' = match last (pairs_on w idxs) with
                      | Some p => {[p.1; p.2]}
                      | None => selected w
                      end ∧
        ∀ c, clip_enabled w' c =
             bool_decide (c ∈ pair_clips (pairs_on w idxs)) || clip_enabled w c.
Proof.
  induction idxs as [|idx idxs IH]; intros cnt w.
  - exists w. cbn. rewrite !Nat.add_0_r. destruct cnt.
    split_and!; [done | apply same_host_refl | done | done |].
    intros c. by rewrite bool_decide_eq_false_2; [|set_solver].
  - destruct (process_track_spec idx cnt w) as (w1 & Hrun1 & Hh1 & Hs1 & Hsel1 & Hen1).
    set (n1 := length (track_pairs w idx)) in *.
    destruct (IH (cnt.1 + 2 * n1, cnt.2 + n1) w1)
      as (w' & Hrun & Hh & Hs & Hsel & Hen).
    assert (pairs_on w1 idxs = pairs_on w idxs) as Hp.
    { unfold pairs_on. apply flat_map_ext. intros i.
      by apply track_pairs_same_host. }
    assert (flat_map (track_events w1) idxs = flat_map (track_events w) idxs) as He.
    { apply flat_map_ext. intros i. by apply track_events_same_host. }
    rewrite Hp in *. rewrite He in *.
    exists w'. cbn [for_each]. run_with Hrun1. rewrite Hrun.
    change (pairs_on w (idx :: idxs)) with (track_pairs w idx ++ pairs_on w idxs).
    cbn [fst snd flat_map]. rewrite length_app. fold n1.
    split_and!.
    + replace (cnt.1 + 2 * n1 + 2 * length (pairs_on w idxs))
        with (cnt.1 + 2 * (n1 + length (pairs_on w idxs))) by lia.
      by rewrite Nat.add_assoc.
    + by eapply same_host_trans.
    + congruence.
    + rewrite Hsel, Hsel1.
      by rewrite (last_app_match _ _ (λ p, {[p.1; p.2]})).
    + intros c. rewrite Hen, Hen1. unfold pair_clips.
      rewrite flat_map_app. fold (pair_clips (track_pairs w idx)).
      fold (pair_clips (pairs_on w idxs)).
      rewrite orb_assoc. f_equal.
      rewrite orb_comm.
      destruct (bool_decide (c ∈ pair_clips (track_pairs w idx))) eqn:E1;
        destruct (bool_decide (c ∈ pair_clips (pairs_on w idxs))) eqn:E2;
        cbn [orb]; symmetry;
        try apply bool_decide_eq_true_2; try apply bool_decide_eq_false_2;
        try apply bool_decide_eq_true_1 in E1; try apply bool_decide_eq_false_1 in E1;
        try apply bool_decide_eq_true_1 in E2; try apply bool_decide_eq_false_1 in E2;
        set_solver.
Qed.

(** ** The settings step (lines 89-96) *)

Lemma ensure_default_transition_spec w :
  ∃ w', ensure_default_transition w = (Ok tt, w', settings_events w) ∧
        same_host w w' ∧ settings w' = settings_after w ∧
        selected w' = selected w ∧ clip_enabled w' = clip_enabled w.
Proof.
  unfold ensure_default_transition, settings_events, settings_after, setting_differs.
  unfold bind at 1. unfold GetSetting at 1, bind at 1, emit, get. cbv beta iota.
  run_with (global_ref_module "TRANSITION_NAME" w).
  destruct (bool_decide (settings w !! "standardVideoTransition" ≠ Some TRANSITION_NAME)).
  - unfold SetSetting, GetSetting, print, bind, emit, get, modify, ret.
    cbv beta iota.
    destruct (setting_accepted w "standardVideoTransition" TRANSITION_NAME) eqn:Hacc;
      cbv beta iota.
    + eexists. split; [reflexivity|]. by split_and!.
    + exists w. split; [reflexivity|]. by split_and!.
  - exists w. split; [reflexivity|]. by split_and!.
Qed.

(** ** The whole of main *)

Lemma main_spec w :
  ∃ w', main w = (main_result w, w', main_events w) ∧
        same_host w w' ∧
        settings w' = (if project_open w && timeline_open w
                       then settings_after w else settings w) ∧
        selected w' = (if reaches_loop w then ∅ else selected w) ∧
        ∀ c, clip_enabled w' c =
             reaches_loop w && bool_decide (c ∈ pair_clips (all_pairs w))
             || clip_enabled w c.
Proof.
  unfold main, main_result, main_events, reaches_loop.
  run_with (global_ref_module "dvr" w).
  unfold bind at 1, scriptapp at 1, emit at 1; cbv beta iota.
  unfold bind at 1, GetProjectManager at 1, emit at 1; cbv beta iota.
  unfold bind at 1, GetCurrentProject at 1, bind at 1, emit at 1, get at 1;
    cbv beta iota.
  destruct (project_open w) eqn:Hp; cbn [negb andb];
    [|exists w; split; [reflexivity|]; split_and!; try done; apply same_host_refl].
  unfold bind at 1, GetCurrentTimeline at 1, bind at 1, emit at 1, get at 1;
    cbv beta iota.
  destruct (timeline_open w) eqn:Ht; cbn [negb andb];
    [|exists w; split; [reflexivity|]; split_and!; try done; apply same_host_refl].
  destruct (ensure_default_transition_spec w) as (w1 & Hrun1 & Hh1 & Hs1 & Hsel1 & Hen1).
  run_with Hrun1.
  unfold bind at 1, UIManager at 1, emit at 1; cbv beta iota.
  assert (name_bound w1 "bmd" = name_bound w "bmd") as Hb.
  { unfold name_bound. by rewrite (sh_globals _ _ Hh1). }
  unfold bind at 1, global_ref at 1. rewrite Hb.
  destruct (name_bound w "bmd") eqn:Hbmd; cbn [negb andb]; cbv beta iota;
    [|exists w1; split; [by rewrite app_nil_r|]; split_and!; try done;
      intros c; by rewrite Hen1].
  unfold bind at 1, UIDispatcher at 1, emit at 1; cbv beta iota.
  unfold bind at 1, GetTrackCount at 1, bind at 1, emit at 1, get at 1;
    cbv beta iota.
  rewrite (sh_tracks _ _ Hh1).
  destruct (length (video_tracks w) =? 0) eqn:Hn; cbn [negb andb].
  { exists w1. split; [by rewrite app_nil_r|]. split_and!; try done.
    intros c; by rewrite Hen1. }
  destruct (track_loop_spec (all_tracks w) (0, 0) w1)
    as (w2 & Hrun2 & Hh2 & Hs2 & Hsel2 & Hen2).
  assert (pairs_on w1 (all_tracks w) = all_pairs w) as Hpairs.
  { unfold all_pairs, pairs_on. apply flat_map_ext. intros i.
    by apply track_pairs_same_host. }
  assert (flat_map (track_events w1) (all_tracks w) =
          flat_map (track_events w) (all_tracks w)) as Hev.
  { apply flat_map_ext. intros i. by apply track_events_same_host. }
  rewrite Hpairs, Hev in *. cbn [fst snd] in Hrun2.
  fold (all_tracks w). run_with Hrun2.
  unfold bind at 1, ClearClipSelections at 1, bind at 1, emit at 1, modify at 1;
    cbv beta iota.
  exists (set_selected ∅ w2). split; [|split_and!].
  - unfold loop_events, final_message, print, emit. cbn [fst snd].
    rewrite !Nat.add_0_l, (Nat.mul_comm 2), Nat.div_mul by done.
    destruct (length (all_pairs w) =? 0); cbn [negb];
      by rewrite ?app_nil_r, <- ?app_assoc.
  - eapply same_host_trans; [exact Hh1|].
    destruct Hh2; by split.
  - cbn. congruence.
  - done.
  - intros c. cbn. by rewrite Hen2, Hen1.
Qed.

(** ** The stable sort *)

Lemma insert_keyed_perm {A} (x : Z * A) l : insert_keyed x l ≡ₚ x :: l.
Proof.
  induction l as [|y l IH]; [done|]. cbn.
  destruct (x.1 <=? y.1)%Z; [done|].
  rewrite IH. apply Permutation_swap.
Qed.

Lemma stable_sort_perm {A} (l : list (Z * A)) : stable_sort l ≡ₚ l.
Proof.
  induction l as [|x l IH]; [done|]. cbn.
  by rewrite insert_keyed_perm, IH.
Qed.

Lemma insert_keyed_sorted {A} (x : Z * A) l :
  StronglySorted key_le l → StronglySorted key_le (insert_keyed x l).
Proof.
  induction 1 as [|y l Hs IH Hall]; cbn.
  - repeat constructor.
  - destruct (Z.leb_spec x.1 y.1) as [Hle|Hgt].
    + constructor; [by constructor|].
      constructor; [done|].
      eapply Forall_impl; [exact Hall|]. unfold key_le. intros z ?. lia.
    + constructor; [done|].
      rewrite insert_keyed_perm. constructor; [|done]. unfold key_le. lia.
Qed.

Lemma stable_sort_sorted {A} (l : list (Z * A)) : StronglySorted key_le (stable_sort l).
Proof.
  induction l as [|x l IH]; cbn; [constructor|]. by apply insert_keyed_sorted.
Qed.

(** Equal keys keep their order: the elements with a given key appear in the
    result in the order they had in the input. *)
Lemma insert_keyed_filter {A} (k : Z) (x : Z * A) l :
  StronglySorted key_le l →
  List.filter (λ y, (y.1 =? k)%Z) (insert_keyed x l) =
  List.filter (λ y, (y.1 =? k)%Z) (x :: l).
Proof.
  induction 1 as [|y l Hs IH Hall]; [done|].
  cbn [insert_keyed]. destruct (Z.leb_spec x.1 y.1) as [Hle|Hgt]; [done|].
  cbn [List.filter] in *. rewrite IH.
  destruct (Z.eqb_spec x.1 k), (Z.eqb_spec y.1 k); try done. lia.
Qed.

Lemma stable_sort_stable {A} (k : Z) (l : list (Z * A)) :
  List.filter (λ y, (y.1 =? k)%Z) (stable_sort l) = List.filter (λ y, (y.1 =? k)%Z) l.
Proof.
  induction l as [|x l IH]; [done|]. cbn [stable_sort].
  rewrite insert_keyed_filter by apply stable_sort_sorted.
  cbn [List.filter]. by rewrite IH.
Qed.

Lemma sorted_by_start_perm w l : sorted_by_start w l ≡ₚ l.
Proof.
  unfold sorted_by_start. rewrite stable_sort_perm.
  rewrite map_map. cbn. by rewrite map_id.
Qed.

Lemma sorted_by_start_sorted w l : StronglySorted (start_le w) (sorted_by_start w l).
Proof.
  unfold sorted_by_start.
  assert (Forall (λ x : Z * clip, x.1 = clip_start w x.2)
                 (stable_sort (map (λ c, (clip_start w c, c)) l))) as Hkeys.
  { rewrite stable_sort_perm. apply Forall_forall. intros x Hx.
    apply list_elem_of_In, in_map_iff in Hx as (c & <- & _). done. }
  pose proof (stable_sort_sorted (map (λ c, (clip_start w c, c)) l)) as Hs.
  induction Hs as [|x s Hs IH Hall]; cbn; [constructor|].
  apply Forall_cons in Hkeys as [Hx Hkeys].
  constructor; [by apply IH|].
  apply Forall_forall. intros c Hc.
  apply list_elem_of_In, in_map_iff in Hc as (y & <- & Hy).
  apply list_elem_of_In in Hy.
  rewrite Forall_forall in Hall, Hkeys.
  specialize (Hall y Hy). specialize (Hkeys y Hy).
  unfold start_le, key_le in *. by rewrite <- Hx, <- Hkeys.
Qed.

Lemma sorted_by_start_length w l : length (sorted_by_start w l) = length l.
Proof. apply Permutation_length, sorted_by_start_perm. Qed.

(** ** Adjacent pairs *)

Lemma adjacent_pairs_length {A} (l : list A) :
  length (adjacent_pairs l) = length l - 1.
Proof.
  unfold adjacent_pairs. destruct l as [|x l]; [done|]. cbn [tail].
  revert x. induction l as [|y l IH]; intros x; [done|].
  cbn [zip zip_with length]. cbn [zip] in IH. rewrite IH. cbn. lia.
Qed.

Lemma adjacent_pairs_clips (l : list clip) c :
  2 ≤ length l → c ∈ pair_clips (adjacent_pairs l) ↔ c ∈ l.
Proof.
  unfold adjacent_pairs, pair_clips.
  destruct l as [|x l]; [cbn; lia|]. cbn [tail]. revert x.
  induction l as [|y l IH]; intros x Hlen; [cbn in Hlen; lia|].
  destruct l as [|z l].
  - cbn. set_solver.
  - specialize (IH y ltac:(cbn; lia)).
    cbn [zip zip_with flat_map fst snd] in *. set_solver.
Qed.

(** ** Projections and flat_map *)

Lemma flat_map_nil {A B} (l : list A) : flat_map (λ _, @nil B) l = [].
Proof. by induction l. Qed.

Lemma flat_map_map {A B C} (f : B → list C) (g : A → B) l :
  flat_map f (map g l) = flat_map (λ x, f (g x)) l.
Proof. induction l as [|x l IH]; [done|]. cbn. by rewrite IH. Qed.

Lemma flat_map_flat_map {A B C} (f : B → list C) (g : A → list B) l :
  flat_map f (flat_map g l) = flat_map (λ x, flat_map f (g x)) l.
Proof. induction l as [|x l IH]; [done|]. cbn. by rewrite flat_map_app, IH. Qed.

Section collect.
Context {B : Type} (f : Event → list B).

Lemma collect_track_events w idx :
  flat_map f (track_events w idx) =
    f (EvGetItemListInTrack "video" idx) ++
    flat_map (λ c, f (EvGetClipProperty c "IsStill")) (items_in_track w idx) ++
    (if length (stills_of w idx) <? 2 then []
     else flat_map (λ c, f (EvGetStart c)) (stills_of w idx)) ++
    flat_map (λ p, flat_map f (pair_events (platform w) p)) (track_pairs w idx).
Proof.
  unfold track_events, track_pairs. cbn [flat_map].
  rewrite flat_map_app, flat_map_map.
  destruct (length (stills_of w idx) <? 2); [done|].
  by rewrite flat_map_app, flat_map_map, flat_map_flat_map.
Qed.

Hypothesis f_items : ∀ idx, f (EvGetItemListInTrack "video" idx) = [].
Hypothesis f_prop : ∀ c, f (EvGetClipProperty c "IsStill") = [].
Hypothesis f_start : ∀ c, f (EvGetStart c) = [].

(** A projection that ignores the reads sees only the pairs. *)
Lemma collect_track_pairs w idx :
  flat_map f (track_events w idx) =
    flat_map (λ p, flat_map f (pair_events (platform w) p)) (track_pairs w idx).
Proof.
  rewrite collect_track_events, f_items.
  rewrite (flat_map_ext _ (λ _, [])) by done.
  rewrite (flat_map_ext (λ c, f (EvGetStart c)) (λ _, [])) by done.
  rewrite !flat_map_nil. by destruct (_ <? _).
Qed.

Lemma collect_tracks_pairs w idxs :
  flat_map f (flat_map (track_events w) idxs) =
    flat_map (λ p, flat_map f (pair_events (platform w) p)) (pairs_on w idxs).
Proof.
  unfold pairs_on. rewrite !flat_map_flat_map.
  apply flat_map_ext. intros idx. apply collect_track_pairs.
Qed.
End collect.

Lemma collect_main_events {B} (f : Event → list B) w :
  flat_map f (main_events w) =
    f (EvScriptApp "Resolve") ++ f EvGetProjectManager ++ f EvGetCurrentProject ++
    (if negb (project_open w) then f (EvPrint MsgNoProject)
     else
       f EvGetCurrentTimeline ++
       (if negb (timeline_open w) then f (EvPrint MsgNoTimeline)
        else
          flat_map f (settings_events w) ++
          f EvUIManager ++
          (if name_bound w "bmd" then
             f EvUIDispatcher ++ f (EvGetTrackCount "video") ++
             (if length (video_tracks w) =? 0 then f (EvPrint MsgNoVideoTracks)
              else
                flat_map f (flat_map (track_events w) (all_tracks w)) ++
                f EvClearClipSelections ++
                f (EvPrint (final_message (length (all_pairs w)))))
           else []))).
Proof.
  unfold main_events, loop_events.
  destruct (project_open w), (timeline_open w), (name_bound w "bmd"),
    (length (video_tracks w) =? 0);
    cbn [negb app flat_map];
    repeat (rewrite ?flat_map_app; cbn [flat_map]);
    by rewrite ?app_nil_r, <- ?app_assoc.
Qed.

Lemma main_trace w : trace_of (main w) = main_events w.
Proof. by destruct (main_spec w) as (w' & -> & _). Qed.

Lemma main_result_of w : result_of (main w) = main_result w.
Proof. by destruct (main_spec w) as (w' & -> & _). Qed.

(** ** Projections of the traces of the loop bodies *)

Lemma process_track_trace idx cnt w :
  trace_of (process_track idx cnt w) = track_events w idx.
Proof. by destruct (process_track_spec idx cnt w) as (w' & -> & _). Qed.

Lemma process_pair_trace p cnt w :
  trace_of (process_pair p cnt w) = pair_events (platform w) p.
Proof. by rewrite process_pair_spec. Qed.

Lemma flat_map_singleton_length {A B} (g : A → B) (l : list A) :
  length (flat_map (λ x, [g x]) l) = length l.
Proof. induction l as [|x l IH]; [done|]. cbn. by rewrite IH. Qed.

Lemma flat_map_singleton_id {A} (l : list A) : flat_map (λ x, [x]) l = l.
Proof. induction l as [|x l IH]; [done|]. cbn. by rewrite IH. Qed.

Lemma pair_ops_track_events w idx :
  pair_ops (track_events w idx) =
    flat_map (pair_events (platform w)) (track_pairs w idx).
Proof. unfold pair_ops. by rewrite collect_track_pairs. Qed.

Lemma keystroke_calls_track_events w idx :
  keystroke_calls (track_events w idx) = length (track_pairs w idx).
Proof.
  unfold keystroke_calls. rewrite collect_track_pairs by done.
  apply (flat_map_singleton_length (λ _, EvKeyReleaseAll)).
Qed.

Lemma selected_clips_track_events w idx :
  selected_clips (track_events w idx) = pair_clips (track_pairs w idx).
Proof. unfold selected_clips. by rewrite collect_track_pairs. Qed.

Lemma enabled_clips_track_events w idx :
  enabled_clips (track_events w idx) =
    map (λ c, (c, true)) (pair_clips (track_pairs w idx)).
Proof.
  unfold enabled_clips, pair_clips. rewrite collect_track_pairs by done.
  induction (track_pairs w idx) as [|p ps IH]; [done|].
  cbn [flat_map map app]. rewrite IH. by destruct p.
Qed.

Lemma sort_key_clips_track_events w idx :
  sort_key_clips (track_events w idx) =
    if length (stills_of w idx) <? 2 then [] else stills_of w idx.
Proof.
  unfold sort_key_clips. rewrite collect_track_events. cbn [app].
  rewrite flat_map_nil.
  rewrite (flat_map_ext (λ p, flat_map _ (pair_events (platform w) p)) (λ _, []))
    by done.
  rewrite flat_map_nil, app_nil_r. cbn [app].
  destruct (_ <? _); [done|]. apply flat_map_singleton_id.
Qed.

Lemma elem_of_stills_of w idx c :
  c ∈ stills_of w idx ↔
  c ∈ items_in_track w idx ∧ clip_props w c !! "IsStill" = Some "True".
Proof.
  unfold stills_of, is_still, is_still_marker.
  rewrite !list_elem_of_In, filter_In, bool_decide_eq_true. done.
Qed.

Lemma elem_of_track_pairs w idx c :
  c ∈ pair_clips (track_pairs w idx) ↔
  c ∈ stills_of w idx ∧ 2 ≤ length (stills_of w idx).
Proof.
  unfold track_pairs. destruct (Nat.ltb_spec (length (stills_of w idx)) 2) as [Hlt|Hge].
  - cbn. split; [by intros ?%elem_of_nil | lia].
  - rewrite adjacent_pairs_clips by by rewrite sorted_by_start_length.
    rewrite sorted_by_start_perm. tauto.
Qed.

(** ** Projections of the trace of main *)

Section collect_main.
Context {B : Type} (f : Event → list B).
Hypothesis f_other : ∀ e, is_pair_op e = false → f e = [].

(** A projection that sees only the work on pairs sees, in a whole run,
    the pairs of all tracks in order and the final deselection. *)
Lemma collect_main_pairs w :
  flat_map f (main_events w) =
    if reaches_loop w
    then flat_map (λ p, flat_map f (pair_events (platform w) p)) (all_pairs w) ++
         f EvClearClipSelections
    else [].
Proof.
  rewrite collect_main_events.
  assert (flat_map f (settings_events w) = []) as ->.
  { unfold settings_events.
    destruct (setting_differs w),
      (setting_accepted w "standardVideoTransition" TRANSITION_NAME);
      cbn [flat_map]; by rewrite !f_other. }
  rewrite collect_tracks_pairs by (intros; by apply f_other).
  rewrite !(f_other (EvPrint _)), !(f_other (EvScriptApp _)),
    !(f_other (EvGetTrackCount _)), (f_other EvGetProjectManager),
    (f_other EvGetCurrentProject), (f_other EvGetCurrentTimeline),
    (f_other EvUIManager), (f_other EvUIDispatcher) by done.
  unfold reaches_loop, all_pairs.
  destruct (project_open w), (timeline_open w), (name_bound w "bmd"),
    (length (video_tracks w) =? 0); cbn [negb andb app]; try done.
  by rewrite app_nil_r.
Qed.
End collect_main.

Lemma ui_events_main w :
  ui_events (trace_of (main w)) =
    flat_map (λ _, shortcut_events (platform w))
             (if reaches_loop w then all_pairs w else []).
Proof.
  rewrite main_trace. unfold ui_events.
  rewrite collect_main_pairs by (by intros []).
  destruct (reaches_loop w); [|done]. cbn [keep is_ui_event]. by rewrite app_nil_r.
Qed.

Lemma key_presses_main w :
  key_presses (trace_of (main w)) =
    flat_map (λ _, [modifier_key (platform w); "T"])
             (if reaches_loop w then all_pairs w else []).
Proof.
  rewrite main_trace. unfold key_presses.
  rewrite collect_main_pairs by (by intros []).
  destruct (reaches_loop w); [|done]. by rewrite app_nil_r.
Qed.

Lemma selection_ops_main w :
  selection_ops (trace_of (main w)) =
    if reaches_loop w
    then flat_map (λ p, [EvClearClipSelections; EvSelect p.1; EvSelect p.2])
                  (all_pairs w) ++ [EvClearClipSelections]
    else [].
Proof.
  rewrite main_trace. unfold selection_ops.
  rewrite collect_main_pairs by (by intros []).
  by destruct (reaches_loop w).
Qed.

Lemma enabled_clips_main w :
  enabled_clips (trace_of (main w)) =
    map (λ c, (c, true)) (if reaches_loop w then pair_clips (all_pairs w) else []).
Proof.
  rewrite main_trace. unfold enabled_clips.
  rewrite collect_main_pairs by (by intros []).
  destruct (reaches_loop w); [|done]. rewrite app_nil_r. unfold pair_clips.
  induction (all_pairs w) as [|p ps IH]; [done|].
  cbn [flat_map map app]. rewrite IH. by destruct p.
Qed.

Lemma set_setting_calls_main w :
  set_setting_calls (trace_of (main w)) =
    if project_open w && timeline_open w && setting_differs w
    then [("standardVideoTransition", TRANSITION_NAME)] else [].
Proof.
  rewrite main_trace. unfold set_setting_calls.
  rewrite collect_main_events, collect_tracks_pairs by done.
  rewrite (flat_map_ext (λ p, flat_map _ (pair_events (platform w) p)) (λ _, []))
    by done.
  rewrite flat_map_nil. unfold settings_events.
  destruct (project_open w), (timeline_open w), (setting_differs w),
    (setting_accepted w "standardVideoTransition" TRANSITION_NAME),
    (name_bound w "bmd"), (length (video_tracks w) =? 0); done.
Qed.

Lemma main_world w :
  let w' := world_of (main w) in
  same_host w w' ∧
  settings w' = (if project_open w && timeline_open w
                 then settings_after w else settings w) ∧
  selected w' = (if reaches_loop w then ∅ else selected w) ∧
  ∀ c, clip_enabled w' c =
       reaches_loop w && bool_decide (c ∈ pair_clips (all_pairs w))
       || clip_enabled w c.
Proof. by destruct (main_spec w) as (w' & -> & ?). Qed.

(** * The model on concrete sessions *)

Example startswith_win :
  (String.prefix "win" "win32", String.prefix "win" "darwin",
   String.prefix "win" "cygwin", String.prefix "win" "linux") =
  (true, false, false, false).
Proof. reflexivity. Qed.

Example stable_sort_keeps_ties :
  map snd (stable_sort [(5, "a"); (3, "b"); (5, "c"); (3, "d")]%Z) =
  ["b"; "d"; "a"; "c"].
Proof. reflexivity. Qed.

Example demo_run :
  result_of (main demo_world) = Ok tt ∧
  trace_of (main demo_world) =
    [EvScriptApp "Resolve"; EvGetProjectManager; EvGetCurrentProject;
     EvGetCurrentTimeline; EvGetSetting "standardVideoTransition";
     EvSetSetting "standardVideoTransition" "Additive Dissolve";
     EvPrint (MsgSetDefault "Additive Dissolve"); EvUIManager;
     EvUIDispatcher; EvGetTrackCount "video";
     EvGetItemListInTrack "video" 1; EvGetClipProperty 1 "IsStill";
     EvGetClipProperty 2 "IsStill"; EvGetClipProperty 3 "IsStill";
     EvGetStart 1; EvGetStart 3; EvClearClipSelections;
     EvSetClipEnabled 3 true; EvSetClipEnabled 1 true;
     EvSelect 3; EvSelect 1; EvKeyPress "Ctrl"; EvKeyPress "T";
     EvKeyReleaseAll; EvSleep DEFAULT_UI_TIMEOUT;
     EvGetItemListInTrack "video" 2; EvGetClipProperty 4 "IsStill";
     EvClearClipSelections; EvPrint (MsgAdded 1 1)] ∧
  map (clip_enabled (world_of (main demo_world))) [1; 2; 3; 4] =
    [true; false; true; false] ∧
  selected (world_of (main demo_world)) = ∅ ∧
  settings (world_of (main demo_world)) !! "standardVideoTransition" =
    Some "Additive Dissolve".
Proof. split_and!; by vm_compute. Qed.

Example standalone_run :
  result_of (main standalone_world) = Raise (NameError "bmd") ∧
  trace_of (main standalone_world) =
    [EvScriptApp "Resolve"; EvGetProjectManager; EvGetCurrentProject;
     EvGetCurrentTimeline; EvGetSetting "standardVideoTransition";
     EvSetSetting "standardVideoTransition" "Additive Dissolve";
     EvPrint (MsgSetDefault "Additive Dissolve"); EvUIManager].
Proof. split; by vm_compute. Qed.

(** * Properties of the specification, C1 to C10 *)

(** ** C1: the sequence of a whole run *)

(** C1, as stated, fails: in a session with an open project, an open timeline
    and two video tracks, the work done for the one pair of stills (3, 1) is not
    just "select both, send the shortcut, sleep": the selection is cleared
    first and both clips are enabled before they are selected. *)
Lemma C1_counterexample :
  project_open demo_world = true ∧ timeline_open demo_world = true ∧
  length (video_tracks demo_world) = 2 ∧
  track_pairs demo_world 1 = [(3, 1)] ∧
  pair_ops (trace_of (process_track 1 (0, 0) demo_world)) =
    [EvClearClipSelections; EvSetClipEnabled 3 true; EvSetClipEnabled 1 true;
     EvSelect 3; EvSelect 1;
     EvKeyPress "Ctrl"; EvKeyPress "T"; EvKeyReleaseAll; EvSleep DEFAULT_UI_TIMEOUT] ∧
  pair_ops (trace_of (process_track 1 (0, 0) demo_world)) ≠
    flat_map (stated_pair_events (platform demo_world)) (track_pairs demo_world 1) ∧
  In (EvSetClipEnabled 3 true) (trace_of (main demo_world)).
Proof.
  split_and!; try by vm_compute.
  vm_compute. tauto.
Qed.

(** C1, amended: in a run with an open project, an open timeline, at least one
    video track and the name [bmd] bound, main returns normally and the calls
    it makes are, in this order: the connection and the two lookups, the
    settings step, the UI manager and dispatcher, GetTrackCount, then for each
    track index 1..count the events of [track_events] (item list, one IsStill
    read per item and, from two stills on, one GetStart per still followed, for
    each adjacent pair of the sorted stills, by ClearClipSelections,
    SetClipEnabled(True) on both, Select on both, the two key presses, the
    release and the sleep), and finally ClearClipSelections and the summary
    line. *)
Theorem C1_main_sequence (w : World) :
  project_open w = true → timeline_open w = true →
  video_tracks w ≠ [] → name_bound w "bmd" = true →
  result_of (main w) = Ok tt ∧
  trace_of (main w) =
    [EvScriptApp "Resolve"; EvGetProjectManager; EvGetCurrentProject;
     EvGetCurrentTimeline] ++
    settings_events w ++
    [EvUIManager; EvUIDispatcher; EvGetTrackCount "video"] ++
    flat_map (track_events w) (seq 1 (length (video_tracks w))) ++
    [EvClearClipSelections; EvPrint (final_message (length (all_pairs w)))].
Proof.
  intros Hp Ht Hv Hb.
  rewrite main_result_of, main_trace.
  unfold main_result, main_events, loop_events, all_tracks.
  rewrite Hp, Ht, Hb. cbn [negb andb].
  destruct (video_tracks w) as [|tr trs] eqn:Htracks; [done|].
  split; [done|]. cbn [length Nat.eqb app]. by rewrite <- ?app_assoc.
Qed.

Lemma C1_main_sequence_witness :
  result_of (main demo_world) = Ok tt ∧
  trace_of (main demo_world) =
    [EvScriptApp "Resolve"; EvGetProjectManager; EvGetCurrentProject;
     EvGetCurrentTimeline] ++
    settings_events demo_world ++
    [EvUIManager; EvUIDispatcher; EvGetTrackCount "video"] ++
    flat_map (track_events demo_world) (seq 1 (length (video_tracks demo_world))) ++
    [EvClearClipSelections; EvPrint (final_message (length (all_pairs demo_world)))].
Proof.
  apply (C1_main_sequence demo_world); [reflexivity | reflexivity | | reflexivity].
  simpl. discriminate.
Defined.

(** ** C2: failure conditions *)

(** C2 at a failing input: the script started standalone on a timeline
    without video tracks.  The run ends with NameError at line 100, before the
    guard of line 103: the "no video tracks" message is never printed. *)
Theorem C2_no_video_tracks_unreported :
  project_open standalone_empty_world = true ∧
  timeline_open standalone_empty_world = true ∧
  video_tracks standalone_empty_world = [] ∧
  result_of (main standalone_empty_world) = Raise (NameError "bmd") ∧
  trace_of (main standalone_empty_world) =
    [EvScriptApp "Resolve"; EvGetProjectManager; EvGetCurrentProject;
     EvGetCurrentTimeline; EvGetSetting "standardVideoTransition";
     EvSetSetting "standardVideoTransition" "Additive Dissolve";
     EvPrint (MsgSetDefault "Additive Dissolve"); EvUIManager].
Proof. split_and!; by vm_compute. Qed.

(** Where [bmd] is bound, every failure condition is reported and main
    returns normally. *)
Lemma failures_reported_when_bound (w : World) :
  name_bound w "bmd" = true →
  result_of (main w) = Ok tt ∧
  (project_open w = false →
   trace_of (main w) = [EvScriptApp "Resolve"; EvGetProjectManager;
                        EvGetCurrentProject; EvPrint MsgNoProject]) ∧
  (project_open w = true → timeline_open w = false →
   trace_of (main w) = [EvScriptApp "Resolve"; EvGetProjectManager;
                        EvGetCurrentProject; EvGetCurrentTimeline;
                        EvPrint MsgNoTimeline]) ∧
  (project_open w = true → timeline_open w = true → video_tracks w = [] →
   last (trace_of (main w)) = Some (EvPrint MsgNoVideoTracks) ∧
   pair_ops (trace_of (main w)) = []) ∧
  (project_open w = true → timeline_open w = true → setting_differs w = true →
   setting_accepted w "standardVideoTransition" TRANSITION_NAME = false →
   In (EvPrint (MsgCouldNotSet (settings w !! "standardVideoTransition")))
      (trace_of (main w))) ∧
  (reaches_loop w = true → all_pairs w = [] →
   last (trace_of (main w)) = Some (EvPrint MsgNoneAdded)).
Proof.
  intros Hb. rewrite main_result_of, main_trace.
  unfold main_result, reaches_loop. rewrite Hb, andb_false_r.
  split; [done|]. split_and!.
  - intros Hp. unfold main_events. by rewrite Hp.
  - intros Hp Ht. unfold main_events. by rewrite Hp, Ht.
  - intros Hp Ht Hv. unfold pair_ops. rewrite collect_main_events.
    unfold main_events. rewrite Hp, Ht, Hb, Hv. cbn [negb length Nat.eqb].
    split.
    + cbn [app]. by rewrite !last_cons, last_app_cons.
    + unfold settings_events.
      by destruct (setting_differs w),
           (setting_accepted w "standardVideoTransition" TRANSITION_NAME).
  - intros Hp Ht Hd Ha. unfold main_events, settings_events.
    rewrite Hp, Ht, Hd, Ha. cbn. tauto.
  - intros Hr Hn. unfold main_events, loop_events.
    apply andb_prop in Hr as [Hr Hv]. apply andb_prop in Hr as [Hr _].
    apply andb_prop in Hr as [Hp Ht]. apply negb_true_iff in Hv.
    rewrite Hp, Ht, Hb, Hv, Hn. cbn [negb length final_message Nat.eqb].
    cbn [app]. rewrite !last_cons, last_app_cons, !last_cons.
    by rewrite last_app_cons.
Qed.

(** ** Keystrokes of the loop body for one track *)

(** The loop body run for a track with n stills sends the shortcut once per
    adjacent pair of the stills sorted by start time (a permutation of the
    stills in nondecreasing order of start), n - 1 times in all when n >= 2;
    below two stills it clears, enables and selects nothing and presses no
    key. *)
Lemma process_track_keystrokes (w : World) (idx : nat) (cnt : counters) :
  let stills := stills_of w idx in
  let sorted := sorted_by_start w stills in
  let t := trace_of (process_track idx cnt w) in
  stills = List.filter (is_still w) (items_in_track w idx) ∧
  sorted ≡ₚ stills ∧
  StronglySorted (start_le w) sorted ∧
  length (adjacent_pairs sorted) = length stills - 1 ∧
  keystroke_calls t = (if length stills <? 2 then 0 else length stills - 1) ∧
  pair_ops t = (if length stills <? 2 then []
                else flat_map (pair_events (platform w)) (adjacent_pairs sorted)).
Proof.
  intros stills sorted t. subst t. rewrite process_track_trace.
  split_and!.
  - done.
  - apply sorted_by_start_perm.
  - apply sorted_by_start_sorted.
  - unfold sorted. by rewrite adjacent_pairs_length, sorted_by_start_length.
  - rewrite keystroke_calls_track_events. unfold track_pairs. fold stills.
    destruct (length stills <? 2); [done|]. fold sorted.
    unfold sorted. by rewrite adjacent_pairs_length, sorted_by_start_length.
  - rewrite pair_ops_track_events. unfold track_pairs. fold stills.
    by destruct (length stills <? 2).
Qed.

(** ** C4: the one setting *)

(** C4: in every run SetSetting is called at most once, and only with the key
    standardVideoTransition (and the value "Additive Dissolve"); it is called
    exactly when a project and a timeline are open and the current value
    differs from "Additive Dissolve".  The settings after the run are those
    before it, except for that key when the call was made and accepted: no
    other setting changes, and nothing changes when the value was already
    "Additive Dissolve". *)
Theorem C4_only_the_default_transition (w : World) :
  let key := "standardVideoTransition" in
  let calls := set_setting_calls (trace_of (main w)) in
  let after := settings (world_of (main w)) in
  length calls ≤ 1 ∧
  calls = (if project_open w && timeline_open w &&
              bool_decide (settings w !! key ≠ Some "Additive Dissolve")
           then [(key, "Additive Dissolve")] else []) ∧
  after = (if project_open w && timeline_open w &&
              bool_decide (settings w !! key ≠ Some "Additive Dissolve") &&
              setting_accepted w key "Additive Dissolve"
           then <[key := "Additive Dissolve"]> (settings w) else settings w) ∧
  (∀ k, k ≠ key → after !! k = settings w !! k) ∧
  (settings w !! key = Some "Additive Dissolve" → calls = [] ∧ after = settings w).
Proof.
  intros key calls after.
  assert (calls = if project_open w && timeline_open w && setting_differs w
                  then [(key, TRANSITION_NAME)] else []) as Hcalls
    by apply set_setting_calls_main.
  assert (after = if project_open w && timeline_open w && setting_differs w &&
                     setting_accepted w key TRANSITION_NAME
                  then <[key := TRANSITION_NAME]> (settings w) else settings w)
    as Hafter.
  { subst after. destruct (main_world w) as (_ & -> & _).
    unfold settings_after. fold key.
    by destruct (project_open w), (timeline_open w), (setting_differs w). }
  clearbody calls after. subst calls after.
  unfold setting_differs, TRANSITION_NAME. fold key.
  split_and!.
  - destruct (_ && _); cbn; lia.
  - done.
  - done.
  - intros k Hk. destruct (_ && _ && _ && _); [|done].
    by rewrite lookup_insert_ne.
  - intros Heq. rewrite (bool_decide_eq_false_2 (_ ≠ _)) by (by intros []).
    by rewrite andb_false_r.
Qed.

(** ** C5: which items take part *)

(** C5, as stated, fails: a still that is alone on its track is neither
    sorted nor selected, and no key is pressed for it, although its IsStill
    property is "True". *)
Lemma C5_counterexample :
  5 ∈ items_in_track lone_still_world 1 ∧
  clip_props lone_still_world 5 !! "IsStill" = Some "True" ∧
  result_of (main lone_still_world) = Ok tt ∧
  sort_key_clips (trace_of (main lone_still_world)) = [] ∧
  selected_clips (trace_of (main lone_still_world)) = [] ∧
  key_presses (trace_of (main lone_still_world)) = [].
Proof. split_and!; try by vm_compute. cbn. set_solver. Qed.

(** C5, amended: when the loop body runs for a track, an item is sorted,
    enabled and selected if and only if it is an item of the track whose
    IsStill property is the string "True" and the track holds at least two
    such items; keys are pressed exactly when the track holds at least two
    such items.  An item whose marker is absent or different is never sorted,
    enabled or selected. *)
Theorem C5_stills_take_part (w : World) (idx : nat) (cnt : counters) (c : clip) :
  let t := trace_of (process_track idx cnt w) in
  let marked := c ∈ items_in_track w idx ∧ clip_props w c !! "IsStill" = Some "True" in
  let paired := 2 ≤ length (stills_of w idx) in
  (c ∈ stills_of w idx ↔ marked) ∧
  (c ∈ sort_key_clips t ↔ marked ∧ paired) ∧
  ((c, true) ∈ enabled_clips t ↔ marked ∧ paired) ∧
  (c ∈ selected_clips t ↔ marked ∧ paired) ∧
  (key_presses t ≠ [] ↔ paired) ∧
  (clip_props w c !! "IsStill" ≠ Some "True" →
   (c ∉ sort_key_clips t) ∧ (c ∉ selected_clips t) ∧ ((c, true) ∉ enabled_clips t)).
Proof.
  intros t marked paired. subst t. rewrite process_track_trace.
  assert (c ∈ sort_key_clips (track_events w idx) ↔ marked ∧ paired) as Hsort.
  { rewrite sort_key_clips_track_events. subst marked paired.
    rewrite <- elem_of_stills_of.
    destruct (Nat.ltb_spec (length (stills_of w idx)) 2).
    - split; [by intros ?%elem_of_nil | lia].
    - tauto. }
  assert (c ∈ selected_clips (track_events w idx) ↔ marked ∧ paired) as Hsel.
  { rewrite selected_clips_track_events, elem_of_track_pairs.
    subst marked paired. by rewrite elem_of_stills_of. }
  assert ((c, true) ∈ enabled_clips (track_events w idx) ↔ marked ∧ paired) as Hen.
  { rewrite enabled_clips_track_events, <- Hsel, selected_clips_track_events.
    rewrite !list_elem_of_In, in_map_iff. split.
    - by intros (c' & [= ->] & ?).
    - intros ?. by exists c. }
  split_and!; try done.
  - apply elem_of_stills_of.
  - unfold key_presses. rewrite collect_track_pairs by done.
    subst paired. unfold track_pairs.
    destruct (Nat.ltb_spec (length (stills_of w idx)) 2) as [Hlt|Hge].
    + cbn. split; [done | lia].
    + split; [done|]. intros _.
      pose proof (adjacent_pairs_length (sorted_by_start w (stills_of w idx))) as Hl.
      rewrite sorted_by_start_length in Hl.
      destruct (adjacent_pairs _) as [|p ps]; [cbn in Hl; lia | done].
  - intros Hne. rewrite Hsort, Hsel, Hen. subst marked. tauto.
Qed.

(** ** C6: the shortcut of the platform *)

(** C6: the keys pressed for a pair are Ctrl then T when sys.platform starts
    with "win" and Cmd then T otherwise; the keys pressed in a whole run are
    this sequence, once per pair. *)
Theorem C6_platform_shortcut (w : World) (p : clip * clip) (cnt : counters) :
  let keys := if String.prefix "win" (platform w) then ["Ctrl"; "T"] else ["Cmd"; "T"] in
  key_presses (trace_of (default_transition_shortcut w)) = keys ∧
  key_presses (trace_of (process_pair p cnt w)) = keys ∧
  key_presses (trace_of (main w)) =
    flat_map (λ _, keys) (if reaches_loop w then all_pairs w else []).
Proof.
  intros keys.
  assert (keys = [modifier_key (platform w); "T"]) as ->.
  { subst keys. unfold modifier_key. by destruct (String.prefix _ _). }
  split_and!.
  - by rewrite default_transition_shortcut_spec.
  - by rewrite process_pair_trace.
  - apply key_presses_main.
Qed.

(** ** C7: the keystroke and its sleep *)

(** C7: ui_keystroke presses the given keys in order, releases all keys and
    then sleeps DEFAULT_UI_TIMEOUT = 0.15 seconds, always, before it returns
    (normally, the host state as it was); the keyboard and sleep events of a
    whole run are complete blocks of press, press, release, sleep, one per
    pair. *)
Theorem C7_keystroke_then_sleep (w : World) (keys : list string) :
  ui_keystroke keys w =
    (Ok tt, w, map EvKeyPress keys ++ [EvKeyReleaseAll; EvSleep DEFAULT_UI_TIMEOUT]) ∧
  DEFAULT_UI_TIMEOUT = 0.15%float ∧
  ui_events (trace_of (main w)) =
    flat_map (λ _, [EvKeyPress (modifier_key (platform w)); EvKeyPress "T";
                    EvKeyReleaseAll; EvSleep DEFAULT_UI_TIMEOUT])
             (if reaches_loop w then all_pairs w else []).
Proof.
  split_and!.
  - apply ui_keystroke_spec.
  - done.
  - apply ui_events_main.
Qed.

(** ** C8: the name bmd *)

(** C8 on the code: [bmd] is not among the names the module binds, and in any
    run with a project and a timeline open in which nothing else has bound it,
    line 100 raises NameError; GetTrackCount is never called. *)
Theorem C8_bmd_unbound (w : World) :
  project_open w = true → timeline_open w = true → name_bound w "bmd" = false →
("bmd" ∉ module_globals) ∧
  result_of (main w) = Raise (NameError "bmd") ∧
  ¬ In (EvGetTrackCount "video") (trace_of (main w)) ∧
  last (trace_of (main w)) = Some EvUIManager.
Proof.
  intros Hp Ht Hb. rewrite main_result_of, main_trace.
  unfold main_result, main_events. rewrite Hp, Ht, Hb. cbn [negb andb].
  split_and!.
  - by apply (bool_decide_eq_false_1 ("bmd" ∈ module_globals)).
  - done.
  - unfold settings_events.
    destruct (setting_differs w),
      (setting_accepted w "standardVideoTransition" TRANSITION_NAME); cbn;
      intros H; repeat (destruct H as [H|H]; [discriminate H|]); done.
  - cbn [app]. by rewrite !last_cons, last_snoc.
Qed.

Lemma C8_bmd_unbound_witness :
("bmd" ∉ module_globals) ∧
  result_of (main standalone_world) = Raise (NameError "bmd") ∧
  ¬ In (EvGetTrackCount "video") (trace_of (main standalone_world)) ∧
  last (trace_of (main standalone_world)) = Some EvUIManager.
Proof.
  apply (C8_bmd_unbound standalone_world); reflexivity.
Defined.

(** ** C9: clips are enabled before they are selected *)

(** C9: for every pair, both clips get SetClipEnabled(True) before either is
    selected, so both are enabled afterwards whatever they were before.  Over a
    whole run, every SetClipEnabled call passes True, the clips of the pairs
    end up enabled and every other clip keeps its flag, and the properties and
    start times of all clips are what they were. *)
Theorem C9_enabled_before_selected (w : World) (p : clip * clip) (cnt : counters) :
  trace_of (process_pair p cnt w) =
    [EvClearClipSelections; EvSetClipEnabled p.1 true; EvSetClipEnabled p.2 true;
     EvSelect p.1; EvSelect p.2] ++ shortcut_events (platform w) ∧
  clip_enabled (world_of (process_pair p cnt w)) p.1 = true ∧
  clip_enabled (world_of (process_pair p cnt w)) p.2 = true ∧
  enabled_clips (trace_of (main w)) =
    map (λ c, (c, true)) (if reaches_loop w then pair_clips (all_pairs w) else []) ∧
  (∀ c, clip_enabled (world_of (main w)) c =
        reaches_loop w && bool_decide (c ∈ pair_clips (all_pairs w))
        || clip_enabled w c) ∧
  clip_props (world_of (main w)) = clip_props w ∧
  clip_start (world_of (main w)) = clip_start w.
Proof.
  destruct (select_pair_world p.1 p.2 w) as (_ & _ & _ & Hen).
  destruct (main_world w) as (Hh & _ & _ & Hmain).
  rewrite process_pair_spec. unfold world_of at 1 2. cbn [fst snd].
  split_and!.
  - done.
  - rewrite Hen. by rewrite bool_decide_eq_true_2; [|set_solver].
  - rewrite Hen. by rewrite bool_decide_eq_true_2; [|set_solver].
  - apply enabled_clips_main.
  - exact Hmain.
  - apply (sh_props _ _ Hh).
  - apply (sh_start _ _ Hh).
Qed.

(** ** C10: the selection *)

(** C10: the shortcut of a pair is sent in the host state reached by
    ClearClipSelections followed by the two Select calls, in which exactly the
    two clips of the pair are selected, and that is still the selection when
    the pair is done.  In a run that gets past the guard on the number of video
    tracks, the last selection call is ClearClipSelections and nothing is
    selected at the end; a run that stops earlier makes no selection call. *)
Theorem C10_selection_discipline (w : World) (p : clip * clip) (cnt : counters) :
  let w1 := world_of (select_pair p.1 p.2 w) in
  select_pair p.1 p.2 w =
    (Ok tt, w1, [EvClearClipSelections; EvSetClipEnabled p.1 true;
                 EvSetClipEnabled p.2 true; EvSelect p.1; EvSelect p.2]) ∧
  selected w1 = {[p.1; p.2]} ∧
  default_transition_shortcut w1 = (Ok tt, w1, shortcut_events (platform w)) ∧
  process_pair p cnt w =
    (Ok (cnt.1 + 2, cnt.2 + 1), w1,
     trace_of (select_pair p.1 p.2 w) ++ trace_of (default_transition_shortcut w1)) ∧
  last (selection_ops (trace_of (main w))) =
    (if reaches_loop w then Some EvClearClipSelections else None) ∧
  selected (world_of (main w)) = (if reaches_loop w then ∅ else selected w).
Proof.
  intros w1.
  destruct (select_pair_world p.1 p.2 w) as (Hh & _ & Hsel & _). fold w1 in Hh, Hsel.
  split_and!.
  - done.
  - exact Hsel.
  - by rewrite default_transition_shortcut_spec, (sh_platform _ _ Hh).
  - rewrite process_pair_spec, default_transition_shortcut_spec.
    by rewrite (sh_platform _ _ Hh).
  - rewrite selection_ops_main. destruct (reaches_loop w); [|done].
    apply last_snoc.
  - by destruct (main_world w) as (_ & _ & -> & _).
Qed.

(** * Further properties of the code *)

(** ** More projections *)

Lemma pair_ops_main w :
  pair_ops (trace_of (main w)) =
    if reaches_loop w
    then flat_map (pair_events (platform w)) (all_pairs w) ++ [EvClearClipSelections]
    else [].
Proof.
  rewrite main_trace. unfold pair_ops.
  rewrite collect_main_pairs by (intros e He; unfold keep; by rewrite He).
  by destruct (reaches_loop w).
Qed.

Lemma keystroke_calls_main w :
  keystroke_calls (trace_of (main w)) =
    if reaches_loop w then length (all_pairs w) else 0.
Proof.
  rewrite main_trace. unfold keystroke_calls.
  rewrite collect_main_pairs by (by intros []).
  destruct (reaches_loop w); [|done]. rewrite app_nil_r.
  apply (flat_map_singleton_length (λ _, EvKeyReleaseAll)).
Qed.

Lemma selected_clips_main w :
  selected_clips (trace_of (main w)) =
    if reaches_loop w then pair_clips (all_pairs w) else [].
Proof.
  rewrite main_trace. unfold selected_clips.
  rewrite collect_main_pairs by (by intros []).
  destruct (reaches_loop w); [|done]. by rewrite app_nil_r.
Qed.

Lemma reaches_loop_same_host w w' :
  same_host w w' → reaches_loop w' = reaches_loop w.
Proof.
  intros H. unfold reaches_loop, name_bound.
  by rewrite (sh_project _ _ H), (sh_timeline _ _ H), (sh_globals _ _ H),
    (sh_tracks _ _ H).
Qed.

Lemma all_pairs_same_host w w' :
  same_host w w' → all_pairs w' = all_pairs w.
Proof.
  intros H. unfold all_pairs, all_tracks, pairs_on. rewrite (sh_tracks _ _ H).
  apply flat_map_ext. intros idx. by apply track_pairs_same_host.
Qed.

Lemma track_pairs_length w idx :
  length (track_pairs w idx) = length (stills_of w idx) - 1.
Proof.
  unfold track_pairs.
  destruct (Nat.ltb_spec (length (stills_of w idx)) 2); [cbn; lia|].
  by rewrite adjacent_pairs_length, sorted_by_start_length.
Qed.

Lemma all_pairs_length w :
  length (all_pairs w) =
    sum_list (map (λ idx, length (stills_of w idx) - 1) (all_tracks w)).
Proof.
  unfold all_pairs, pairs_on.
  induction (all_tracks w) as [|idx idxs IH]; [done|].
  cbn [flat_map map sum_list sum_list_with]. rewrite length_app, IH.
  by rewrite track_pairs_length.
Qed.

Lemma all_pairs_length_guarded w :
  length (all_pairs w) =
    sum_list (map (λ idx, if length (stills_of w idx) <? 2 then 0
                          else length (stills_of w idx) - 1) (all_tracks w)).
Proof.
  rewrite all_pairs_length. f_equal. apply map_ext. intros idx.
  destruct (Nat.ltb_spec (length (stills_of w idx)) 2); lia.
Qed.

Lemma items_by_index (tracks : list (list clip)) :
  flat_map (λ i, default [] (tracks !! i)) (seq 0 (length tracks)) = concat tracks.
Proof.
  induction tracks as [|tr tracks IH]; [done|].
  cbn [length seq flat_map concat]. rewrite <- seq_shift, flat_map_map.
  rewrite (flat_map_ext _ (λ i, default [] (tracks !! i))) by done.
  by rewrite IH.
Qed.

Lemma items_of_all_tracks w :
  flat_map (items_in_track w) (all_tracks w) = concat (video_tracks w).
Proof.
  unfold all_tracks. rewrite <- seq_shift, flat_map_map.
  apply items_by_index.
Qed.

(** ** The two early guards (lines 76-86) *)

(** X1: with no project open, or a project but no timeline, main prints the
    one message of the guard, returns normally and leaves the host exactly as
    it was, whatever names are bound. *)
Theorem X1_closed_session_untouched (w : World) :
  project_open w && timeline_open w = false →
  main w =
    (Ok tt, w,
     [EvScriptApp "Resolve"; EvGetProjectManager; EvGetCurrentProject] ++
     (if project_open w then [EvGetCurrentTimeline; EvPrint MsgNoTimeline]
      else [EvPrint MsgNoProject])).
Proof.
  intros Hclosed. unfold main.
  run_with (global_ref_module "dvr" w).
  unfold bind at 1, scriptapp at 1, emit at 1; cbv beta iota.
  unfold bind at 1, GetProjectManager at 1, emit at 1; cbv beta iota.
  unfold bind at 1, GetCurrentProject at 1, bind at 1, emit at 1, get at 1;
    cbv beta iota.
  destruct (project_open w); cbn [negb]; [|reflexivity].
  unfold bind at 1, GetCurrentTimeline at 1, bind at 1, emit at 1, get at 1;
    cbv beta iota.
  cbn [andb] in Hclosed. rewrite Hclosed. reflexivity.
Qed.

Lemma X1_closed_session_untouched_witness :
  main no_project_world =
    (Ok tt, no_project_world,
     [EvScriptApp "Resolve"; EvGetProjectManager; EvGetCurrentProject] ++
     (if project_open no_project_world
      then [EvGetCurrentTimeline; EvPrint MsgNoTimeline]
      else [EvPrint MsgNoProject])).
Proof. apply (X1_closed_session_untouched no_project_world). reflexivity. Defined.

(** ** What a run that fails at line 100 has already done *)

(** X2: a run that ends with NameError at line 100 has by then carried out
    the settings step: where the host accepts the change, the project's
    default transition is "Additive Dissolve" afterwards.  No clip was
    enabled or selected and the selection is what it was. *)
Theorem X2_setting_changed_before_failure (w : World) :
  project_open w = true → timeline_open w = true → name_bound w "bmd" = false →
  setting_accepted w "standardVideoTransition" "Additive Dissolve" = true →
  result_of (main w) = Raise (NameError "bmd") ∧
  settings (world_of (main w)) !! "standardVideoTransition" = Some "Additive Dissolve" ∧
  selected (world_of (main w)) = selected w ∧
  (∀ c, clip_enabled (world_of (main w)) c = clip_enabled w c) ∧
  pair_ops (trace_of (main w)) = [].
Proof.
  intros Hp Ht Hb Hacc.
  destruct (main_world w) as (_ & Hs & Hsel & Hen).
  assert (reaches_loop w = false) as Hr.
  { unfold reaches_loop. by rewrite Hb, andb_false_r. }
  rewrite Hr in *. rewrite Hp, Ht in Hs. cbn [andb] in Hs.
  split_and!.
  - rewrite main_result_of. unfold main_result. by rewrite Hp, Ht, Hb.
  - rewrite Hs. unfold settings_after, setting_differs, TRANSITION_NAME.
    rewrite Hacc, andb_true_r. case_bool_decide as Hd.
    + by rewrite lookup_insert_eq.
    + done.
  - exact Hsel.
  - intros c. by rewrite Hen.
  - by rewrite pair_ops_main, Hr.
Qed.

Lemma X2_setting_changed_before_failure_witness :
  result_of (main standalone_world) = Raise (NameError "bmd") ∧
  settings (world_of (main standalone_world)) !! "standardVideoTransition" =
    Some "Additive Dissolve" ∧
  selected (world_of (main standalone_world)) = selected standalone_world ∧
  (∀ c, clip_enabled (world_of (main standalone_world)) c =
        clip_enabled standalone_world c) ∧
  pair_ops (trace_of (main standalone_world)) = [].
Proof. apply (X2_setting_changed_before_failure standalone_world); reflexivity. Defined.

(** ** The settings step does not steer the loop *)

(** X3: what main does to clips, selection and keyboard does not depend on
    the project settings nor on whether SetSetting was accepted: after a
    rejected change the same shortcuts are sent ("continuing anyway"). *)
Theorem X3_loop_ignores_settings (w : World) (s : gmap string string)
    (acc : string → string → bool) :
  pair_ops (trace_of (main (with_project_settings s acc w))) =
  pair_ops (trace_of (main w)) ∧
  result_of (main (with_project_settings s acc w)) = result_of (main w).
Proof.
  split.
  - by rewrite !pair_ops_main.
  - by rewrite !main_result_of.
Qed.

(** ** Flags and selection do not steer the loop; running twice *)

(** X4: what main does to clips, selection and keyboard, and how it ends,
    does not depend on which clips are enabled or selected beforehand: a
    disabled still is paired, enabled and selected like an enabled one. *)
Theorem X4_loop_ignores_flags_and_selection (w : World) (f : clip → bool)
    (sel : gset clip) :
  pair_ops (trace_of (main (set_selected sel (set_clip_enabled f w)))) =
  pair_ops (trace_of (main w)) ∧
  result_of (main (set_selected sel (set_clip_enabled f w))) = result_of (main w).
Proof.
  split.
  - by rewrite !pair_ops_main.
  - by rewrite !main_result_of.
Qed.

(** X5: where the host accepts the change, a second run finds the default
    transition in place and does not call SetSetting; it reports that the
    transition is already the default. *)
Theorem X5_second_run_keeps_setting (w : World) :
  project_open w = true → timeline_open w = true →
  setting_accepted w "standardVideoTransition" "Additive Dissolve" = true →
  set_setting_calls (trace_of (main (world_of (main w)))) = [] ∧
  In (EvPrint (MsgAlreadyDefault "Additive Dissolve"))
     (trace_of (main (world_of (main w)))) ∧
  settings (world_of (main (world_of (main w)))) = settings (world_of (main w)).
Proof.
  intros Hp Ht Hacc.
  destruct (main_world w) as (Hh & Hs & _).
  set (w1 := world_of (main w)) in *.
  rewrite Hp, Ht in Hs. cbn [andb] in Hs.
  assert (setting_differs w1 = false) as Hd.
  { assert (settings w1 !! "standardVideoTransition" = Some TRANSITION_NAME) as Hl.
    { rewrite Hs. unfold settings_after, setting_differs, TRANSITION_NAME.
      rewrite Hacc, andb_true_r. case_bool_decide as Hd; [|done].
      by rewrite lookup_insert_eq. }
    unfold setting_differs. apply bool_decide_eq_false_2. by intros []. }
  split_and!.
  - rewrite set_setting_calls_main, Hd. by rewrite andb_false_r.
  - rewrite main_trace. unfold main_events, settings_events.
    rewrite (sh_project _ _ Hh), (sh_timeline _ _ Hh), Hp, Ht, Hd.
    cbn. tauto.
  - destruct (main_world w1) as (_ & -> & _).
    unfold settings_after. rewrite Hd. by destruct (_ && _).
Qed.

Lemma X5_second_run_keeps_setting_witness :
  set_setting_calls (trace_of (main (world_of (main demo_world)))) = [] ∧
  In (EvPrint (MsgAlreadyDefault "Additive Dissolve"))
     (trace_of (main (world_of (main demo_world)))) ∧
  settings (world_of (main (world_of (main demo_world)))) =
    settings (world_of (main demo_world)).
Proof. apply (X5_second_run_keeps_setting demo_world); reflexivity. Defined.

(** ** The summary line (lines 107-108, 127, 131, 135-138) *)

(** X6: a run that gets to the loop ends with the summary line, and the
    number in it is the number of shortcuts the run has sent, which is the
    sum, over the tracks that hold at least two stills, of the number of
    stills less one; its two numbers are always equal.  The "nothing added"
    line is printed exactly when no shortcut was sent. *)
Theorem X6_summary_counts_shortcuts (w : World) :
  reaches_loop w = true →
  let n := keystroke_calls (trace_of (main w)) in
  last (trace_of (main w)) =
    Some (EvPrint (if n =? 0 then MsgNoneAdded else MsgAdded n n)) ∧
  n = sum_list (map (λ idx, if length (stills_of w idx) <? 2 then 0
                            else length (stills_of w idx) - 1)
                    (seq 1 (length (video_tracks w)))) ∧
  n = length (selected_clips (trace_of (main w))) / 2.
Proof.
  intros Hr n. subst n.
  rewrite keystroke_calls_main, selected_clips_main, main_trace, Hr.
  split_and!.
  - unfold main_events, loop_events.
    apply andb_prop in Hr as [Hr Hv]. apply andb_prop in Hr as [Hr Hb].
    apply andb_prop in Hr as [Hp Ht]. apply negb_true_iff in Hv.
    rewrite Hp, Ht, Hb, Hv. cbn [negb app].
    by rewrite !last_cons, last_app_cons, !last_cons, last_app_cons.
  - apply all_pairs_length_guarded.
  - unfold pair_clips.
    assert (∀ ps : list (clip * clip),
              length (flat_map (λ p, [p.1; p.2]) ps) = length ps * 2) as ->.
    { intros ps. induction ps as [|p ps IH]; [done|]. cbn. rewrite IH. lia. }
    by rewrite Nat.div_mul.
Qed.

Lemma X6_summary_counts_shortcuts_witness :
  let n := keystroke_calls (trace_of (main demo_world)) in
  last (trace_of (main demo_world)) =
    Some (EvPrint (if n =? 0 then MsgNoneAdded else MsgAdded n n)) ∧
  n = sum_list (map (λ idx, if length (stills_of demo_world idx) <? 2 then 0
                            else length (stills_of demo_world idx) - 1)
                    (seq 1 (length (video_tracks demo_world)))) ∧
  n = length (selected_clips (trace_of (main demo_world))) / 2.
Proof. apply (X6_summary_counts_shortcuts demo_world). reflexivity. Defined.

(** ** What the script reads (lines 110-113) *)

(** X7: a run that gets to the loop asks for the item list of each video
    track 1..count once, in order, and reads the property IsStill of every
    item of every track exactly once, in timeline order; no other clip
    property is ever read, and a run that stops earlier reads none. *)
Theorem X7_one_read_per_item (w : World) :
  track_reads (trace_of (main w)) =
    (if reaches_loop w
     then map (λ idx, ("video", idx)) (seq 1 (length (video_tracks w))) else []) ∧
  property_reads (trace_of (main w)) =
    (if reaches_loop w
     then map (λ c, (c, "IsStill")) (concat (video_tracks w)) else []).
Proof.
  rewrite main_trace. unfold track_reads, property_reads.
  rewrite !collect_main_events, !flat_map_flat_map.
  rewrite (flat_map_ext (λ idx, flat_map _ (track_events w idx))
                        (λ idx, [("video", idx)])).
  2: { intros idx. rewrite collect_track_events.
       rewrite (flat_map_ext (λ p, flat_map _ (pair_events (platform w) p)) (λ _, []))
         by done.
       rewrite !flat_map_nil. by destruct (_ <? _). }
  rewrite (flat_map_ext (λ idx, flat_map _ (track_events w idx))
                        (λ idx, map (λ c, (c, "IsStill")) (items_in_track w idx))).
  2: { intros idx. rewrite collect_track_events.
       rewrite (flat_map_ext (λ p, flat_map _ (pair_events (platform w) p)) (λ _, []))
         by done.
       rewrite !flat_map_nil.
       assert (∀ l : list clip,
                 flat_map (λ c, [(c, "IsStill")]) l = map (λ c, (c, "IsStill")) l) as ->.
       { intros l. induction l as [|c l IH]; [done|]. cbn. by rewrite IH. }
       destruct (_ <? _); cbn [app]; by rewrite ?app_nil_r. }
  assert (flat_map (λ idx, [("video", idx)]) (all_tracks w) =
          map (λ idx, ("video", idx)) (seq 1 (length (video_tracks w)))) as ->.
  { unfold all_tracks. induction (seq 1 _) as [|i l IH]; [done|]. cbn. by rewrite IH. }
  assert (flat_map (λ idx, map (λ c, (c, "IsStill")) (items_in_track w idx)) (all_tracks w) =
          map (λ c, (c, "IsStill")) (concat (video_tracks w))) as ->.
  { rewrite <- items_of_all_tracks.
    induction (all_tracks w) as [|i l IH]; [done|]. cbn. by rewrite map_app, IH. }
  unfold reaches_loop, settings_events.
  destruct (project_open w), (timeline_open w), (name_bound w "bmd"),
    (length (video_tracks w) =? 0), (setting_differs w),
    (setting_accepted w "standardVideoTransition" TRANSITION_NAME);
    cbn [negb andb app flat_map]; by rewrite ?app_nil_r.
Qed.

(** ** The order of the sorted stills (line 118) *)

Lemma filter_map_snd {A B} (P : B → bool) (l : list (A * B)) :
  List.filter P (map snd l) = map snd (List.filter (λ y, P y.2) l).
Proof.
  induction l as [|y l IH]; [done|]. cbn. destruct (P y.2); cbn; by rewrite IH.
Qed.

Lemma sorted_by_start_stable (w : World) (l : list clip) (k : Z) :
  List.filter (λ c, (clip_start w c =? k)%Z) (sorted_by_start w l) =
  List.filter (λ c, (clip_start w c =? k)%Z) l.
Proof.
  unfold sorted_by_start. rewrite filter_map_snd.
  set (keyed := map (λ c, (clip_start w c, c)) l).
  assert (∀ l' : list (Z * clip),
            Forall (λ y, y.1 = clip_start w y.2) l' →
            List.filter (λ y, (clip_start w y.2 =? k)%Z) l' =
            List.filter (λ y, (y.1 =? k)%Z) l') as Hkey.
  { intros l' Hl'. apply filter_ext_in. intros y Hy.
    rewrite Forall_forall in Hl'. by rewrite (Hl' y) by by apply list_elem_of_In. }
  assert (Forall (λ y : Z * clip, y.1 = clip_start w y.2) keyed) as Hk.
  { apply Forall_forall. intros y Hy.
    apply list_elem_of_In, in_map_iff in Hy as (c & <- & _). done. }
  rewrite Hkey by by rewrite stable_sort_perm.
  rewrite stable_sort_stable, <- Hkey by done.
  subst keyed. clear. induction l as [|c l IH]; [done|].
  cbn. destruct (clip_start w c =? k)%Z; cbn; by rewrite IH.
Qed.

(** X8: line 118 sorts the stills of a track stably, and the loop body pairs
    them in that order: the list the sort returns is a permutation of the
    stills in nondecreasing order of start in which stills that start at the
    same frame keep the order the host listed them in, and the selection and
    keyboard work of the loop body is the per-pair work for the adjacent pairs
    of that list. *)
Theorem X8_equal_starts_keep_their_order (w : World) (idx : nat) (cnt : counters) :
  let stills := stills_of w idx in
  ∃ sorted,
    sort_by_key GetStart stills w = (Ok sorted, w, map EvGetStart stills) ∧
    sorted ≡ₚ stills ∧
    StronglySorted (start_le w) sorted ∧
    (∀ k, List.filter (λ c, (clip_start w c =? k)%Z) sorted =
          List.filter (λ c, (clip_start w c =? k)%Z) stills) ∧
    pair_ops (trace_of (process_track idx cnt w)) =
      (if length stills <? 2 then []
       else flat_map (pair_events (platform w)) (zip sorted (tail sorted))).
Proof.
  intros stills. exists (sorted_by_start w stills). split_and!.
  - apply sort_by_key_spec.
  - apply sorted_by_start_perm.
  - apply sorted_by_start_sorted.
  - intros k. apply sorted_by_start_stable.
  - rewrite process_track_trace, pair_ops_track_events. unfold track_pairs.
    fold stills. by destruct (length stills <? 2).
Qed.

(** ** The pairs of a track (line 120) *)

Lemma adjacent_pairs_sorted {A} (R : A → A → Prop) (l : list A) :
  StronglySorted R l → Forall (λ p, R p.1 p.2) (adjacent_pairs l).
Proof.
  unfold adjacent_pairs. induction 1 as [|x l Hs IH Hall]; [constructor|].
  destruct l as [|y l]; [constructor|].
  cbn [tail zip zip_with] in *. constructor; [|exact IH].
  by apply Forall_cons in Hall as [? _].
Qed.

Lemma adjacent_pairs_chain {A} (l : list A) i (p q : A * A) :
  adjacent_pairs l !! i = Some p → adjacent_pairs l !! S i = Some q → p.2 = q.1.
Proof.
  unfold adjacent_pairs. intros Hp Hq.
  apply lookup_zip_with_Some in Hp as (a & b & -> & _ & Hb).
  apply lookup_zip_with_Some in Hq as (a' & b' & -> & Ha' & _).
  rewrite lookup_tail in Hb. cbn. congruence.
Qed.

Lemma track_pairs_chain_the_stills (w : World) (idx : nat) :
  Forall (λ p, p.1 ∈ stills_of w idx ∧ p.2 ∈ stills_of w idx ∧
               (clip_start w p.1 ≤ clip_start w p.2)%Z)
         (track_pairs w idx) ∧
  (∀ i p q, track_pairs w idx !! i = Some p →
            track_pairs w idx !! S i = Some q → p.2 = q.1).
Proof.
  split.
  - assert (Forall (λ p, start_le w p.1 p.2) (track_pairs w idx)) as Hle.
    { unfold track_pairs. destruct (_ <? _); [constructor|].
      apply adjacent_pairs_sorted, sorted_by_start_sorted. }
    apply Forall_forall. intros p Hp.
    rewrite Forall_forall in Hle. specialize (Hle p Hp).
    assert (∀ c, c ∈ [p.1; p.2] → c ∈ pair_clips (track_pairs w idx)) as Hin.
    { intros c Hc. unfold pair_clips.
      apply list_elem_of_In, in_flat_map. exists p.
      split; by apply list_elem_of_In. }
    split_and!; [| |exact Hle].
    + apply (elem_of_track_pairs w idx), Hin. set_solver.
    + apply (elem_of_track_pairs w idx), Hin. set_solver.
  - intros i p q. unfold track_pairs. destruct (_ <? _); [done|].
    apply adjacent_pairs_chain.
Qed.

(** X9: the selection and keyboard work of the loop body for a track is the
    per-pair work (clear, enable both, select both, shortcut) for a list of
    pairs in which every pair consists of two stills of that track, the first
    starting no later than the second, and each pair begins with the clip the
    pair before it ended with. *)
Theorem X9_pairs_chain_the_stills (w : World) (idx : nat) (cnt : counters) :
  ∃ ps : list (clip * clip),
    pair_ops (trace_of (process_track idx cnt w)) =
      flat_map (λ p, [EvClearClipSelections;
                      EvSetClipEnabled p.1 true; EvSetClipEnabled p.2 true;
                      EvSelect p.1; EvSelect p.2] ++ shortcut_events (platform w)) ps ∧
    length ps = (if length (stills_of w idx) <? 2 then 0
                 else length (stills_of w idx) - 1) ∧
    Forall (λ p, (p.1 ∈ items_in_track w idx ∧
                  clip_props w p.1 !! "IsStill" = Some "True") ∧
                 (p.2 ∈ items_in_track w idx ∧
                  clip_props w p.2 !! "IsStill" = Some "True") ∧
                 (clip_start w p.1 ≤ clip_start w p.2)%Z) ps ∧
    (∀ i p q, ps !! i = Some p → ps !! S i = Some q → p.2 = q.1).
Proof.
  exists (track_pairs w idx).
  destruct (track_pairs_chain_the_stills w idx) as [Hall Hchain].
  split_and!.
  - by rewrite process_track_trace, pair_ops_track_events.
  - rewrite track_pairs_length.
    destruct (Nat.ltb_spec (length (stills_of w idx)) 2); lia.
  - eapply Forall_impl; [exact Hall|]. intros p (H1 & H2 & H3).
    by rewrite <- !elem_of_stills_of.
  - exact Hchain.
Qed.

(** ** Select calls between clears (lines 122-126) *)

Lemma peak_selects_ge n evs : n ≤ peak_selects n evs.
Proof. destruct evs; cbn; lia. Qed.

Lemma peak_selects_app n l1 l2 :
  peak_selects n (l1 ++ l2) =
    Nat.max (peak_selects n l1) (peak_selects (selects_after n l1) l2).
Proof.
  revert n. induction l1 as [|e l1 IH]; intros n.
  - cbn. pose proof (peak_selects_ge n l2). lia.
  - cbn [peak_selects app]. rewrite IH.
    change (selects_after n (e :: l1)) with (selects_after (select_step n e) l1).
    lia.
Qed.

Lemma at_most_two_nil : at_most_two [].
Proof. intros n Hn. cbn. lia. Qed.

Lemma at_most_two_app l1 l2 :
  at_most_two l1 → at_most_two l2 → at_most_two (l1 ++ l2).
Proof.
  intros H1 H2 n Hn. destruct (H1 n Hn) as [Hp1 Ha1].
  destruct (H2 _ Ha1) as [Hp2 Ha2].
  rewrite peak_selects_app. unfold selects_after in *. rewrite fold_left_app.
  split; [lia | done].
Qed.

Lemma at_most_two_cons e l :
  (∀ n, select_step n e ≤ n) → at_most_two l → at_most_two (e :: l).
Proof.
  intros He Hl n Hn. specialize (He n).
  destruct (Hl (select_step n e) ltac:(lia)) as [Hp Ha].
  cbn. split; [lia | done].
Qed.

Lemma at_most_two_pair plat p : at_most_two (pair_events plat p).
Proof. intros n Hn. cbn. lia. Qed.

Lemma at_most_two_flat_map {A} (f : A → list Event) l :
  (∀ x, at_most_two (f x)) → at_most_two (flat_map f l).
Proof.
  intros Hf. induction l as [|x l IH]; [apply at_most_two_nil|].
  cbn. by apply at_most_two_app.
Qed.

Lemma at_most_two_map {A} (g : A → Event) l :
  (∀ x n, select_step n (g x) ≤ n) → at_most_two (map g l).
Proof.
  intros Hg. induction l as [|x l IH]; [apply at_most_two_nil|].
  cbn. apply at_most_two_cons; [apply Hg | done].
Qed.

Lemma at_most_two_track w idx : at_most_two (track_events w idx).
Proof.
  unfold track_events. apply at_most_two_cons; [done|].
  apply at_most_two_app; [by apply at_most_two_map|].
  destruct (_ <? _); [apply at_most_two_nil|].
  apply at_most_two_app; [by apply at_most_two_map|].
  apply at_most_two_flat_map. intros p. apply at_most_two_pair.
Qed.

Lemma at_most_two_main w : at_most_two (main_events w).
Proof.
  unfold main_events, loop_events, settings_events.
  destruct (project_open w), (timeline_open w), (name_bound w "bmd"),
    (length (video_tracks w) =? 0), (setting_differs w),
    (setting_accepted w "standardVideoTransition" TRANSITION_NAME);
    cbn [negb app];
    repeat first
      [ apply at_most_two_nil
      | apply at_most_two_cons; [intros n; cbn; lia|]
      | apply at_most_two_app
      | apply at_most_two_flat_map; intros idx; apply at_most_two_track ].
Qed.

(** X10: at no point of a run has the script made more than two Select calls
    since its last ClearClipSelections (or since its start), in whatever state
    it runs and wherever it stops. *)
Theorem X10_never_three_selects (w : World) (pre post : list Event) :
  trace_of (main w) = pre ++ post →
  selects_after 0 pre ≤ 2.
Proof.
  intros Hsplit. rewrite main_trace in Hsplit.
  pose proof (at_most_two_main w 0 ltac:(lia)) as [Hpeak _].
  rewrite Hsplit, peak_selects_app in Hpeak.
  pose proof (peak_selects_ge (selects_after 0 pre) post). 
  assert (∀ n l, selects_after n l ≤ peak_selects n l) as Hle.
  { intros n l. revert n. induction l as [|e l IH]; intros n; cbn; [lia|].
    specialize (IH (select_step n e)). unfold selects_after in IH. lia. }
  specialize (Hle 0 pre). lia.
Qed.

Lemma X10_never_three_selects_witness :
  selects_after 0
    [EvScriptApp "Resolve"; EvGetProjectManager; EvGetCurrentProject;
     EvGetCurrentTimeline; EvGetSetting "standardVideoTransition";
     EvSetSetting "standardVideoTransition" "Additive Dissolve";
     EvPrint (MsgSetDefault "Additive Dissolve"); EvUIManager;
     EvUIDispatcher; EvGetTrackCount "video";
     EvGetItemListInTrack "video" 1; EvGetClipProperty 1 "IsStill";
     EvGetClipProperty 2 "IsStill"; EvGetClipProperty 3 "IsStill";
     EvGetStart 1; EvGetStart 3; EvClearClipSelections;
     EvSetClipEnabled 3 true; EvSetClipEnabled 1 true;
     EvSelect 3; EvSelect 1] ≤ 2.
Proof.
  apply (X10_never_three_selects demo_world _
           [EvKeyPress "Ctrl"; EvKeyPress "T"; EvKeyReleaseAll;
            EvSleep DEFAULT_UI_TIMEOUT;
            EvGetItemListInTrack "video" 2; EvGetClipProperty 4 "IsStill";
            EvClearClipSelections; EvPrint (MsgAdded 1 1)]).
  reflexivity.
Defined.

(** ** Clips the script changes *)

Lemma elem_of_items_in_track w idx c :
  c ∈ items_in_track w idx → c ∈ concat (video_tracks w).
Proof.
  unfold items_in_track. destruct idx as [|i]; [by intros ?%elem_of_nil|].
  destruct (video_tracks w !! i) as [tr|] eqn:Htr; cbn; [|by intros ?%elem_of_nil].
  intros Hc. apply list_elem_of_In, in_concat. exists tr.
  split; apply list_elem_of_In; [|done].
  by eapply list_elem_of_lookup_2.
Qed.

Lemma elem_of_pairs_on w idxs c :
  c ∈ pair_clips (pairs_on w idxs) →
  c ∈ concat (video_tracks w) ∧ clip_props w c !! "IsStill" = Some "True".
Proof.
  unfold pairs_on, pair_clips. rewrite flat_map_flat_map.
  intros Hc. apply list_elem_of_In, in_flat_map in Hc as (idx & _ & Hc).
  apply list_elem_of_In in Hc. fold (pair_clips (track_pairs w idx)) in Hc.
  apply elem_of_track_pairs in Hc as [Hc _].
  apply elem_of_stills_of in Hc as [Hc ?].
  split; [by eapply elem_of_items_in_track | done].
Qed.

(** X12: in a whole run, every clip that is selected and every clip whose
    enabled flag is written is an item of a video track whose IsStill
    property is "True"; a clip that is not a still is never changed. *)
Theorem X12_only_stills_are_changed (w : World) :
  Forall (λ c, c ∈ concat (video_tracks w) ∧
               clip_props w c !! "IsStill" = Some "True")
         (selected_clips (trace_of (main w))) ∧
  Forall (λ cb, cb.1 ∈ concat (video_tracks w) ∧
                clip_props w cb.1 !! "IsStill" = Some "True" ∧ cb.2 = true)
         (enabled_clips (trace_of (main w))) ∧
  (∀ c, clip_props w c !! "IsStill" ≠ Some "True" →
        clip_enabled (world_of (main w)) c = clip_enabled w c).
Proof.
  rewrite selected_clips_main, enabled_clips_main.
  destruct (main_world w) as (_ & _ & _ & Hen).
  split_and!.
  - destruct (reaches_loop w); [|constructor].
    apply Forall_forall. intros c Hc. by eapply elem_of_pairs_on.
  - destruct (reaches_loop w); [|constructor].
    apply Forall_forall. intros cb Hcb.
    apply list_elem_of_In, in_map_iff in Hcb as (c & <- & Hc).
    apply list_elem_of_In, elem_of_pairs_on in Hc as [? ?]. done.
  - intros c Hc. rewrite Hen.
    rewrite (bool_decide_eq_false_2 (c ∈ pair_clips (all_pairs w))).
    + by rewrite andb_false_r.
    + intros Hin. by apply elem_of_pairs_on in Hin as [_ ?].
Qed.

(** ** The last line of a run *)

(** X13: a run that returns normally always ends with a printed line, the one
    of the first guard that applies (no project, no timeline, no video track)
    or else the summary; no normal return is silent. *)
Theorem X13_normal_return_ends_with_a_line (w : World) :
  result_of (main w) = Ok tt →
  last (trace_of (main w)) =
    Some (EvPrint
      (if negb (project_open w) then MsgNoProject
       else if negb (timeline_open w) then MsgNoTimeline
       else if length (video_tracks w) =? 0 then MsgNoVideoTracks
       else if length (all_pairs w) =? 0 then MsgNoneAdded
       else MsgAdded (length (all_pairs w)) (length (all_pairs w)))).
Proof.
  rewrite main_result_of, main_trace.
  unfold main_result, main_events, loop_events, final_message.
  destruct (project_open w), (timeline_open w), (name_bound w "bmd"),
    (length (video_tracks w) =? 0); cbn [negb andb app]; try done; intros _.
  - by rewrite !last_cons, last_app_cons.
  - by rewrite !last_cons, last_app_cons, !last_cons, last_app_cons.
Qed.

Lemma X13_normal_return_ends_with_a_line_witness :
  last (trace_of (main locked_world)) =
    Some (EvPrint
      (if negb (project_open locked_world) then MsgNoProject
       else if negb (timeline_open locked_world) then MsgNoTimeline
       else if length (video_tracks locked_world) =? 0 then MsgNoVideoTracks
       else if length (all_pairs locked_world) =? 0 then MsgNoneAdded
       else MsgAdded (length (all_pairs locked_world))
                     (length (all_pairs locked_world)))).
Proof. apply (X13_normal_return_ends_with_a_line locked_world). reflexivity. Defined.


(** ** A rejected change of the setting (lines 90-94) *)

(** X14: when the default transition differs and the host rejects the
    change, main asks for the setting a second time, prints the warning with
    the value the host then reports, and leaves the settings as they were;
    SetSetting is not tried again. *)
Theorem X14_rejected_change_is_reported (w : World) :
  project_open w = true → timeline_open w = true →
  settings w !! "standardVideoTransition" ≠ Some "Additive Dissolve" →
  setting_accepted w "standardVideoTransition" "Additive Dissolve" = false →
  (∃ rest,
     trace_of (main w) =
       [EvScriptApp "Resolve"; EvGetProjectManager; EvGetCurrentProject;
        EvGetCurrentTimeline;
        EvGetSetting "standardVideoTransition";
        EvSetSetting "standardVideoTransition" "Additive Dissolve";
        EvGetSetting "standardVideoTransition";
        EvPrint (MsgCouldNotSet (settings w !! "standardVideoTransition"));
        EvUIManager] ++ rest ∧
     set_setting_calls rest = []) ∧
  settings (world_of (main w)) = settings w.
Proof.
  intros Hp Ht Hd Hacc.
  assert (setting_differs w = true) as Hdiff
    by by apply bool_decide_eq_true_2.
  split.
  - eexists. split.
    + rewrite main_trace. unfold main_events, settings_events.
      rewrite Hp, Ht, Hdiff. unfold TRANSITION_NAME. rewrite Hacc.
      cbn [negb app]. reflexivity.
    + unfold set_setting_calls.
      destruct (name_bound w "bmd"); [|done].
      destruct (length (video_tracks w) =? 0); [done|].
      unfold loop_events. cbn [flat_map app].
      rewrite flat_map_app, collect_tracks_pairs by done.
      rewrite (flat_map_ext (λ p, flat_map _ (pair_events (platform w) p)) (λ _, []))
        by done.
      by rewrite flat_map_nil.
  - destruct (main_world w) as (_ & -> & _).
    rewrite Hp, Ht. unfold settings_after, TRANSITION_NAME.
    by rewrite Hacc, andb_false_r.
Qed.

Lemma X14_rejected_change_is_reported_witness :
  (∃ rest,
     trace_of (main locked_world) =
       [EvScriptApp "Resolve"; EvGetProjectManager; EvGetCurrentProject;
        EvGetCurrentTimeline;
        EvGetSetting "standardVideoTransition";
        EvSetSetting "standardVideoTransition" "Additive Dissolve";
        EvGetSetting "standardVideoTransition";
        EvPrint (MsgCouldNotSet (settings locked_world !! "standardVideoTransition"));
        EvUIManager] ++ rest ∧
     set_setting_calls rest = []) ∧
  settings (world_of (main locked_world)) = settings locked_world.
Proof.
  apply (X14_rejected_change_is_reported locked_world); try reflexivity.
  vm_compute. discriminate.
Defined.

(** ** The locked session, worked out *)

Example locked_run :
  track_pairs locked_world 1 = [(3, 2); (2, 4); (4, 1)] ∧
  result_of (main locked_world) = Ok tt ∧
  key_presses (trace_of (main locked_world)) =
    ["Cmd"; "T"; "Cmd"; "T"; "Cmd"; "T"] ∧
  last (trace_of (main locked_world)) = Some (EvPrint (MsgAdded 3 3)) ∧
  settings (world_of (main locked_world)) !! "standardVideoTransition" =
    Some "Cross Dissolve".
Proof. split_and!; by vm_compute. Qed.

(** ** C3: keystrokes per track, in a whole run *)




Example C3_demo_run :
  keystroke_calls (trace_of (main demo_world)) = 1 ∧
  pair_ops (trace_of (main demo_world)) =
    [EvClearClipSelections; EvSetClipEnabled 3 true; EvSetClipEnabled 1 true;
     EvSelect 3; EvSelect 1;
     EvKeyPress "Ctrl"; EvKeyPress "T"; EvKeyReleaseAll; EvSleep DEFAULT_UI_TIMEOUT;
     EvClearClipSelections] ∧
  keystroke_calls (trace_of (main locked_world)) = 3.
Proof. split_and!; by vm_compute. Qed.
